(** * Asset normalisation and placement in the Babylon demo scenes

    A shallow embedding of [src/app/babylon/AssetTestScene.tsx] and
    [src/app/babylon/ArcheryGameScene.tsx].  The text that follows the test
    scene inside [AssetTestScene.tsx] is an earlier revision of the game
    scene with the same [getBoundingBox] and [loadAsset]; the game scene is
    embedded from [ArcheryGameScene.tsx].

    - A JavaScript [number] is an IEEE-754 binary64 value: Rocq's primitive
      [float].  [Math.abs], [Math.max] and the operators [/], [-], [<], [>]
      are the binary64 ones.
    - A Babylon [Vector3] is a record of three numbers.  The scenes never
      mutate a vector they still share between two nodes, so vectors are
      values.
    - Scene nodes are JavaScript objects reached through references.  The
      scene graph is a store from references to objects, and an assignment
      [o.f = v] updates the store at [o]. *)

From Stdlib Require Import Bool Arith List String ZArith Lia Permutation.
From Stdlib Require Import Floats.
Import ListNotations.
Open Scope string_scope.
Open Scope list_scope.

Set Warnings "-inexact-float".

(** ** Numbers *)

Abbreviation number := float (only parsing).

Definition is_pos_zero (n : number) : bool :=
  match classify n with PZero => true | _ => false end.

Definition is_neg_zero (n : number) : bool :=
  match classify n with NZero => true | _ => false end.

(** [Math.abs]. *)
Definition Math_abs (n : number) : number := abs n.

(** One iteration of the loop of [Math.max] (ECMA-262, 21.3.2.24): the
    running [highest] is replaced when the argument is [+0] and [highest]
    is [-0], or when the argument is greater. *)
Definition Math_max_step (highest n : number) : number :=
  if is_pos_zero n && is_neg_zero highest then n
  else if (highest <? n)%float then n else highest.

(** [Math.max(...args)]: [NaN] when an argument is [NaN], otherwise the
    largest argument, starting from [-Infinity]. *)
Definition Math_max (args : list number) : number :=
  if existsb is_nan args then nan
  else fold_left Math_max_step args neg_infinity.

(** ** Vector3 *)

Record Vector3 : Set := mkVector3 { x : number; y : number; z : number }.

(** [Vector3.Zero()]. *)
Definition Zero : Vector3 := mkVector3 0 0 0.

(** One axis of [minimizeInPlaceFromFloats]:
    [if (other < this) this = other]. *)
Definition minimize_axis (this other : number) : number :=
  if (other <? this)%float then other else this.

(** One axis of [maximizeInPlaceFromFloats]:
    [if (other > this) this = other]. *)
Definition maximize_axis (this other : number) : number :=
  if (this <? other)%float then other else this.

(** [Vector3.Minimize(left, right)]: a clone of [left] on which
    [minimizeInPlace(right)] ran. *)
Definition Minimize (left right : Vector3) : Vector3 :=
  mkVector3 (minimize_axis (x left) (x right))
            (minimize_axis (y left) (y right))
            (minimize_axis (z left) (z right)).

(** [Vector3.Maximize(left, right)]: a clone of [left] on which
    [maximizeInPlace(right)] ran. *)
Definition Maximize (left right : Vector3) : Vector3 :=
  mkVector3 (maximize_axis (x left) (x right))
            (maximize_axis (y left) (y right))
            (maximize_axis (z left) (z right)).

(** [a.subtract(b)]. *)
Definition subtract (a b : Vector3) : Vector3 :=
  mkVector3 (x a - x b)%float (y a - y b)%float (z a - z b)%float.

(** ** Scene nodes *)

(** A reference to a scene node. *)
Definition ident := nat.

(** A scene node as the two files use it.  [parent] is [None] for [null].
    [instanceof_Mesh] is the outcome of [node instanceof Mesh].  A transform
    property that is [None] does not exist on the object, so
    ['scaling' in node] is [isSome (scaling node)].  [minimumWorld] and
    [maximumWorld] are the corners of
    [node.getBoundingInfo().boundingBox]. *)
Record Node : Set := mkNode {
  parent : option ident;
  instanceof_Mesh : bool;
  scaling : option Vector3;
  position : option Vector3;
  rotation : option Vector3;
  minimumWorld : Vector3;
  maximumWorld : Vector3
}.

Definition isSome {A : Type} (o : option A) : bool :=
  match o with Some _ => true | None => false end.

Definition set_scaling (v : Vector3) (n : Node) : Node :=
  mkNode (parent n) (instanceof_Mesh n) (Some v) (position n) (rotation n)
         (minimumWorld n) (maximumWorld n).

Definition set_position (v : Vector3) (n : Node) : Node :=
  mkNode (parent n) (instanceof_Mesh n) (scaling n) (Some v) (rotation n)
         (minimumWorld n) (maximumWorld n).

Definition set_rotation (v : Vector3) (n : Node) : Node :=
  mkNode (parent n) (instanceof_Mesh n) (scaling n) (position n) (Some v)
         (minimumWorld n) (maximumWorld n).

Definition set_parent (p : option ident) (n : Node) : Node :=
  mkNode p (instanceof_Mesh n) (scaling n) (position n) (rotation n)
         (minimumWorld n) (maximumWorld n).

(** The object store: every reference denotes an object. *)
Definition Scene := ident -> Node.

(** The store after the object at [i] was updated by [f]. *)
Definition upd (sc : Scene) (i : ident) (f : Node -> Node) : Scene :=
  fun j => if Nat.eqb j i then f (sc j) else sc j.

(** ** The bounding box result *)

Record BoundingBox : Set := mkBoundingBox {
  min : Vector3;
  max : Vector3;
  size : Vector3
}.

(** ** The world of a scene component

    [loadedAssets] and [loading] are the component's two state cells
    ([setLoadedAssets], [setLoading]); [console] collects what was written
    with [console.log], [console.warn] and [console.error], oldest first. *)

(** A thrown value: an [Error] object with its message, or anything else. *)
Inductive JsError : Set :=
| ErrorObject (message : string)
| OtherThrown (description : string).

Inductive ConsoleEntry : Set :=
| warn_no_valid_meshes (name : string)
| warn_no_meshes (name : string)
| log_scaled (name : string) (currentSize targetSize scaleFactor : number)
| log_loaded_meshes (name : string) (count : nat) (pos : Vector3)
| log_loaded_at (name : string) (pos : Vector3)
| error_loading (name : string) (error : JsError)
| error_details (message : string)
| log_all_assets_loaded
| log_game_scene_loaded
| log_bow_positioned (pos : Vector3)
| log_bow_scale (scale : Vector3)
| log_target_positioned (pos : Vector3)
| log_target_scale (scale : Vector3).

Record World : Type := mkWorld {
  scene : Scene;
  loadedAssets : list string;
  loading : bool;
  console : list ConsoleEntry
}.

(** ** Computations: state and exceptions *)

Inductive Completion (A : Type) : Type :=
| Normal (a : A)
| Throw (e : JsError).
Arguments Normal {A} a.
Arguments Throw {A} e.

Definition M (A : Type) : Type := World -> Completion A * World.

Definition ret {A : Type} (a : A) : M A := fun w => (Normal a, w).

Definition bind {A B : Type} (m : M A) (k : A -> M B) : M B :=
  fun w => match m w with
           | (Normal a, w') => k a w'
           | (Throw e, w') => (Throw e, w')
           end.

Definition throw {A : Type} (e : JsError) : M A := fun w => (Throw e, w).

(** [try { body } catch (error) { handler }]. *)
Definition try_catch {A : Type} (body : M A) (handler : JsError -> M A) : M A :=
  fun w => match body w with
           | (Normal a, w') => (Normal a, w')
           | (Throw e, w') => handler e w'
           end.

Declare Scope js_scope.
Delimit Scope js_scope with js.
Notation "v <- m ;; k" := (bind m (fun v => k))
  (at level 100, m at next level, right associativity) : js_scope.
Notation "m ;; k" := (bind m (fun _ => k))
  (at level 100, right associativity) : js_scope.
Open Scope js_scope.

Definition get_scene : M Scene := fun w => (Normal (scene w), w).

(** [node.f = v]. *)
Definition assign (i : ident) (f : Node -> Node) : M unit :=
  fun w => (Normal tt,
            mkWorld (upd (scene w) i f) (loadedAssets w) (loading w) (console w)).

(** [setLoadedAssets(prev => [...prev, name])]. *)
Definition setLoadedAssets_append (name : string) : M unit :=
  fun w => (Normal tt,
            mkWorld (scene w) (loadedAssets w ++ [name]) (loading w) (console w)).

(** [setLoading(b)]. *)
Definition setLoading (b : bool) : M unit :=
  fun w => (Normal tt, mkWorld (scene w) (loadedAssets w) b (console w)).

Definition console_write (e : ConsoleEntry) : M unit :=
  fun w => (Normal tt,
            mkWorld (scene w) (loadedAssets w) (loading w) (console w ++ [e])).

(** ** The external mesh loader *)

(** How the promise of [SceneLoader.ImportMeshAsync] settles: rejected with
    an error, or resolved with a result whose [meshes] array holds
    references to the nodes the loader added to the scene. *)
Inductive LoaderOutcome : Set :=
| Rejected (error : JsError)
| Resolved (meshes : list ident).

(** [await promise]: resumes with the result, or throws the rejection. *)
Definition await (o : LoaderOutcome) : M (list ident) :=
  match o with
  | Rejected e => throw e
  | Resolved meshes => ret meshes
  end.

(** What a call of [loadAsset] evaluates to. *)
Inductive Value : Set :=
| undefined
| null
| NodeRef (i : ident).

(** [node.parent && 'prop' in node.parent]: the parent when the test
    holds. *)
Definition parent_with (prop : Node -> option Vector3) (sc : Scene)
    (node : ident) : option ident :=
  match parent (sc node) with
  | Some p => if isSome (prop (sc p)) then Some p else None
  | None => None
  end.

(** [result.meshes.find(mesh => !mesh.parent) || result.meshes[0]], where
    [first] is [result.meshes[0]]. *)
Definition find_rootMesh (sc : Scene) (resultMeshes : list ident)
    (first : ident) : ident :=
  match find (fun mesh => negb (isSome (parent (sc mesh)))) resultMeshes with
  | Some mesh => mesh
  | None => first
  end.

(** [Math.PI]. *)
Definition Math_PI : number := 0x1.921fb54442d18p+1%float.

(** ** Promise.all over the load tasks

    Every call of [loadAsset] runs up to its [await] at once; the rest of
    its body runs, without interruption, when its loader promise settles.
    [order] lists the tasks by the moment their loader promise settles. *)

Fixpoint set_nth {A : Type} (i : nat) (a : A) (l : list A) : list A :=
  match l, i with
  | [], _ => []
  | _ :: t, O => a :: t
  | h :: t, S j => h :: set_nth j a t
  end.

Fixpoint settle_all (tasks : list (M Value)) (order : list nat)
    (results : list (option (Completion Value))) (w : World)
    : list (option (Completion Value)) * World :=
  match order with
  | [] => (results, w)
  | i :: rest =>
    match nth_error tasks i with
    | Some task =>
      let (c, w') := task w in
      settle_all tasks rest (set_nth i (Some c) results) w'
    | None => settle_all tasks rest results w
    end
  end.

(** The values [Promise.all] fulfils with: [None] while a promise is
    pending or once one is rejected. *)
Fixpoint fulfilled_values (results : list (option (Completion Value)))
    : option (list Value) :=
  match results with
  | [] => Some []
  | Some (Normal v) :: rest =>
    match fulfilled_values rest with
    | Some vs => Some (v :: vs)
    | None => None
    end
  | _ :: _ => None
  end.

(** [Promise.all(tasks).then(callback)]: the callback runs once every task
    fulfilled, and not at all otherwise. *)
Definition Promise_all_then (tasks : list (M Value)) (order : list nat)
    (callback : list Value -> M unit) (w : World) : World :=
  let (results, w') := settle_all tasks order (repeat None (List.length tasks)) w in
  match fulfilled_values results with
  | Some values => snd (callback values w')
  | None => w'
  end.

(** ** src/app/babylon/AssetTestScene.tsx *)

Module AssetTestScene.

(** The body of [meshes.forEach] in [getBoundingBox]. *)
Definition forEach_step (acc : Vector3 * Vector3) (mesh : Node)
    : Vector3 * Vector3 :=
  let (min, max) := acc in
  if instanceof_Mesh mesh
  then (Minimize min (minimumWorld mesh), Maximize max (maximumWorld mesh))
  else (min, max).

Definition getBoundingBox (meshes : list Node) : option BoundingBox :=
  match meshes with
  | [] => None
  | first :: _ =>
    let (min, max) :=
      fold_left forEach_step meshes (minimumWorld first, maximumWorld first) in
    Some (mkBoundingBox min max (subtract max min))
  end.

(** The local [currentSize] of [loadAsset]. *)
Definition currentSize (boundingBox : BoundingBox) : number :=
  Math_max [Math_abs (x (size boundingBox));
            Math_abs (y (size boundingBox));
            Math_abs (z (size boundingBox))].

(** The local [scaleFactor] of [loadAsset]. *)
Definition scaleFactor (targetSize : number) (boundingBox : BoundingBox)
    : number :=
  (targetSize / currentSize boundingBox)%float.

(** The [try] block of [loadAsset] from the [await] on.  [Some v] is a
    [return v] that ran, [None] is the end of the block. *)
Definition loadAsset_try (outcome : LoaderOutcome) (pos : Vector3)
    (name : string) (targetSize : number) : M (option Value) :=
  resultMeshes <- await outcome ;;
  match resultMeshes with
  | first :: _ =>
    sc <- get_scene ;;
    let meshes := filter (fun m => instanceof_Mesh (sc m)) resultMeshes in
    match meshes with
    | [] => console_write (warn_no_valid_meshes name) ;; ret (Some undefined)
    | _ :: _ =>
      let rootMesh := find_rootMesh sc resultMeshes first in
      let boundingBox := getBoundingBox (map sc meshes) in
      match boundingBox with
      | Some boundingBox =>
        let s := scaleFactor targetSize boundingBox in
        sc <- get_scene ;;
        match parent_with scaling sc rootMesh with
        | Some p => assign p (set_scaling (mkVector3 s s s))
        | None => assign rootMesh (set_scaling (mkVector3 s s s))
        end ;;
        console_write (log_scaled name (currentSize boundingBox) targetSize s)
      | None => ret tt
      end ;;
      assign rootMesh (set_position pos) ;;
      sc <- get_scene ;;
      match parent_with position sc rootMesh with
      | Some p =>
        assign p (set_position pos) ;;
        assign rootMesh (set_position Zero)
      | None => ret tt
      end ;;
      setLoadedAssets_append name ;;
      console_write (log_loaded_meshes name (List.length resultMeshes) pos) ;;
      ret None
    end
  | [] => console_write (warn_no_meshes name) ;; ret None
  end.

(** The [catch] block of [loadAsset]. *)
Definition loadAsset_catch (name : string) (error : JsError)
    : M (option Value) :=
  console_write (error_loading name error) ;;
  match error with
  | ErrorObject message => console_write (error_details message)
  | OtherThrown _ => ret tt
  end ;;
  ret None.

(** [loadAsset(folderPath, fileName, position, name, targetSize)] from the
    moment the promise of [SceneLoader.ImportMeshAsync] settles with
    [outcome].  The function has no [return] with a value. *)
Definition loadAsset (folderPath fileName : string) (pos : Vector3)
    (name : string) (targetSize : number) (outcome : LoaderOutcome)
    : M Value :=
  _ <- try_catch (loadAsset_try outcome pos name targetSize)
                 (loadAsset_catch name) ;;
  ret undefined.

(** The callback of [Promise.all(...).then]. *)
Definition on_loaded (_ : list Value) : M unit :=
  setLoading false ;;
  console_write log_all_assets_loaded.

(** The three loads of the effect and their barrier. *)
Definition load_all (bow arrow target : LoaderOutcome) (order : list nat)
    : World -> World :=
  Promise_all_then
    [loadAsset "recurve_bow" "scene.gltf" (mkVector3 (-4) 1 0)
               "Recurve Bow" 2.5 bow;
     loadAsset "arrow" "scene.gltf" (mkVector3 0 1 0) "Arrow" 5 arrow;
     loadAsset "target" "scene.gltf" (mkVector3 4 1 0) "Target" 3 target]
    order on_loaded.

End AssetTestScene.

(** ** src/app/babylon/ArcheryGameScene.tsx *)

Module ArcheryGameScene.

(** The body of [meshes.forEach] in [getBoundingBox]. *)
Definition forEach_step (acc : Vector3 * Vector3) (mesh : Node)
    : Vector3 * Vector3 :=
  let (min, max) := acc in
  if instanceof_Mesh mesh
  then (Minimize min (minimumWorld mesh), Maximize max (maximumWorld mesh))
  else (min, max).

Definition getBoundingBox (meshes : list Node) : option BoundingBox :=
  match meshes with
  | [] => None
  | first :: _ =>
    let (min, max) :=
      fold_left forEach_step meshes (minimumWorld first, maximumWorld first) in
    Some (mkBoundingBox min max (subtract max min))
  end.

(** The local [currentSize] of [loadAsset]. *)
Definition currentSize (boundingBox : BoundingBox) : number :=
  Math_max [Math_abs (x (size boundingBox));
            Math_abs (y (size boundingBox));
            Math_abs (z (size boundingBox))].

(** The local [scaleFactor] of [loadAsset]. *)
Definition scaleFactor (targetSize : number) (boundingBox : BoundingBox)
    : number :=
  (targetSize / currentSize boundingBox)%float.

(** The [try] block of [loadAsset] from the [await] on.  [Some v] is a
    [return v] that ran, [None] is the end of the block. *)
Definition loadAsset_try (outcome : LoaderOutcome) (pos rot : Vector3)
    (name : string) (targetSize : number) : M (option Value) :=
  resultMeshes <- await outcome ;;
  match resultMeshes with
  | first :: _ =>
    sc <- get_scene ;;
    let meshes := filter (fun m => instanceof_Mesh (sc m)) resultMeshes in
    match meshes with
    | [] => console_write (warn_no_valid_meshes name) ;; ret (Some null)
    | _ :: _ =>
      let rootMesh := find_rootMesh sc resultMeshes first in
      let boundingBox := getBoundingBox (map sc meshes) in
      match boundingBox with
      | Some boundingBox =>
        let s := scaleFactor targetSize boundingBox in
        sc <- get_scene ;;
        match parent_with scaling sc rootMesh with
        | Some p => assign p (set_scaling (mkVector3 s s s))
        | None => assign rootMesh (set_scaling (mkVector3 s s s))
        end
      | None => ret tt
      end ;;
      sc <- get_scene ;;
      match parent_with position sc rootMesh with
      | Some p =>
        assign p (set_position pos) ;;
        sc <- get_scene ;;
        (if isSome (rotation (sc p))
         then assign p (set_rotation rot)
         else ret tt) ;;
        assign rootMesh (set_position Zero)
      | None =>
        assign rootMesh (set_position pos) ;;
        assign rootMesh (set_rotation rot)
      end ;;
      setLoadedAssets_append name ;;
      console_write (log_loaded_at name pos) ;;
      ret (Some (NodeRef rootMesh))
    end
  | [] => ret None
  end.

(** The [catch] block of [loadAsset]. *)
Definition loadAsset_catch (name : string) (error : JsError)
    : M (option Value) :=
  console_write (error_loading name error) ;;
  ret None.

(** [loadAsset(folderPath, fileName, position, rotation, name, targetSize)]
    from the moment the promise of [SceneLoader.ImportMeshAsync] settles
    with [outcome].  After the [try] statement comes [return null]. *)
Definition loadAsset (folderPath fileName : string) (pos rot : Vector3)
    (name : string) (targetSize : number) (outcome : LoaderOutcome)
    : M Value :=
  r <- try_catch (loadAsset_try outcome pos rot name targetSize)
                 (loadAsset_catch name) ;;
  match r with
  | Some v => ret v
  | None => ret null
  end.

(** [v.toString()] on a property read: a [TypeError] when the property is
    undefined. *)
Definition toString_of (v : option Vector3) : M Vector3 :=
  match v with
  | Some v => ret v
  | None => throw (ErrorObject "Cannot read properties of undefined")
  end.

Section Effect.

(** The reference of the [FreeCamera] the effect creates. *)
Variable camera : ident.

(** The scaling, rotation and position [setParent] gives a node so that it
    keeps its world transform under its new parent (engine arithmetic on
    world matrices). *)
Variable relative_transform : Scene -> ident -> ident
                              -> Vector3 * Vector3 * Vector3.

(** [node.setParent(newParent)] of Babylon's [TransformNode]. *)
Definition setParent (node newParent : ident) : M unit :=
  sc <- get_scene ;;
  let '(s, r, p) := relative_transform sc node newParent in
  assign node (set_scaling s) ;;
  assign node (set_rotation r) ;;
  assign node (set_position p) ;;
  assign node (set_parent (Some newParent)).

(** [if (bowRef && bowRef instanceof Mesh) { ... }] of the callback. *)
Definition hold_bow (bowRef : Value) : M unit :=
  match bowRef with
  | NodeRef bow =>
    sc <- get_scene ;;
    if instanceof_Mesh (sc bow) then
      p <- toString_of (position (sc bow)) ;;
      console_write (log_bow_positioned p) ;;
      s <- toString_of (scaling (sc bow)) ;;
      console_write (log_bow_scale s) ;;
      setParent bow camera ;;
      assign bow (set_position (mkVector3 0 (-0.2) 1.2)) ;;
      assign bow (set_rotation
                    (mkVector3 0 (Math_PI / 12) (Math_PI / 2)))
    else ret tt
  | _ => ret tt
  end.

(** [if (targetRef && targetRef instanceof Mesh) { ... }] of the
    callback. *)
Definition report_target (targetRef : Value) : M unit :=
  match targetRef with
  | NodeRef target =>
    sc <- get_scene ;;
    if instanceof_Mesh (sc target) then
      p <- toString_of (position (sc target)) ;;
      console_write (log_target_positioned p) ;;
      s <- toString_of (scaling (sc target)) ;;
      console_write (log_target_scale s)
    else ret tt
  | _ => ret tt
  end.

(** The callback of [Promise.all(...).then]. *)
Definition on_loaded (results : list Value) : M unit :=
  setLoading false ;;
  console_write log_game_scene_loaded ;;
  let bowRef := nth 0 results undefined in
  let targetRef := nth 1 results undefined in
  hold_bow bowRef ;;
  report_target targetRef.

(** The two loads of the effect and their barrier. *)
Definition load_all (bow target : LoaderOutcome) (order : list nat)
    : World -> World :=
  Promise_all_then
    [loadAsset "recurve_bow" "scene.gltf" (mkVector3 0 0 0) (mkVector3 0 0 0)
               "Recurve Bow" 0.8 bow;
     loadAsset "target" "scene.gltf" (mkVector3 0 1.5 12)
               (mkVector3 0 (Math_PI / 2) 0) "Target" 4 target]
    order on_loaded.

End Effect.

End ArcheryGameScene.

(** ** What the statements below speak of *)

(** [r] is the least element of [l] in the order of numbers. *)
Definition is_minimum_of (r : number) (l : list number) : Prop :=
  In r l /\ forall b, In b l -> (r <=? b)%float = true.

(** [r] is the greatest element of [l] in the order of numbers. *)
Definition is_maximum_of (r : number) (l : list number) : Prop :=
  In r l /\ forall b, In b l -> (b <=? r)%float = true.

(** No coordinate of the vector is [NaN]. *)
Definition numeric (v : Vector3) : Prop :=
  is_nan (x v) = false /\ is_nan (y v) = false /\ is_nan (z v) = false.

(** The node is a [Mesh] whose world bounding box has numeric corners. *)
Definition Mesh_with_box (m : Node) : Prop :=
  instanceof_Mesh m = true /\ numeric (minimumWorld m) /\ numeric (maximumWorld m).

(** [r], the result of [getBoundingBox] on [meshes], is the union of the
    world bounding boxes of [meshes]: on each axis its [min] is the least
    minimum corner, its [max] the greatest maximum corner, and its [size]
    is [max - min]; there is no box for the empty list. *)
Definition union_box (meshes : list Node) (r : option BoundingBox) : Prop :=
  match meshes with
  | [] => r = None
  | _ :: _ =>
    exists bb, r = Some bb
    /\ is_minimum_of (x (min bb)) (map (fun m => x (minimumWorld m)) meshes)
    /\ is_minimum_of (y (min bb)) (map (fun m => y (minimumWorld m)) meshes)
    /\ is_minimum_of (z (min bb)) (map (fun m => z (minimumWorld m)) meshes)
    /\ is_maximum_of (x (max bb)) (map (fun m => x (maximumWorld m)) meshes)
    /\ is_maximum_of (y (max bb)) (map (fun m => y (maximumWorld m)) meshes)
    /\ is_maximum_of (z (max bb)) (map (fun m => z (maximumWorld m)) meshes)
    /\ x (size bb) = (x (max bb) - x (min bb))%float
    /\ y (size bb) = (y (max bb) - y (min bb))%float
    /\ z (size bb) = (z (max bb) - z (min bb))%float
  end.

(** The node that receives the scale: the root's parent when it has a
    [scaling] property, the root otherwise. *)
Definition scale_target (sc : Scene) (rootMesh : ident) : ident :=
  match parent_with scaling sc rootMesh with
  | Some p => p
  | None => rootMesh
  end.

(** The node that receives the position: the root's parent when it has a
    [position] property, the root otherwise. *)
Definition position_target (sc : Scene) (rootMesh : ident) : ident :=
  match parent_with position sc rootMesh with
  | Some p => p
  | None => rootMesh
  end.

(** The [Mesh] instances of [result.meshes]. *)
Definition usable_meshes (sc : Scene) (resultMeshes : list ident) : list ident :=
  filter (fun m => instanceof_Mesh (sc m)) resultMeshes.

(** The root node [loadAsset] picks from [result.meshes]. *)
Definition rootMesh_of (sc : Scene) (resultMeshes : list ident) : ident :=
  find_rootMesh sc resultMeshes (hd O resultMeshes).

(** The store the assignments of [AssetTestScene.loadAsset] leave, read
    off its statements in order. *)
Definition AssetTest_store_after (sc : Scene) (rootMesh : ident)
    (s : number) (pos : Vector3) : Scene :=
  let sc1 := upd sc (scale_target sc rootMesh) (set_scaling (mkVector3 s s s)) in
  let sc2 := upd sc1 rootMesh (set_position pos) in
  match parent_with position sc2 rootMesh with
  | Some p => upd (upd sc2 p (set_position pos)) rootMesh (set_position Zero)
  | None => sc2
  end.

(** The store the assignments of [ArcheryGameScene.loadAsset] leave, read
    off its statements in order. *)
Definition ArcheryGame_store_after (sc : Scene) (rootMesh : ident)
    (s : number) (pos rot : Vector3) : Scene :=
  let sc1 := upd sc (scale_target sc rootMesh) (set_scaling (mkVector3 s s s)) in
  match parent_with position sc1 rootMesh with
  | Some p =>
    let sc2 := upd sc1 p (set_position pos) in
    let sc3 := if isSome (rotation (sc2 p))
               then upd sc2 p (set_rotation rot) else sc2 in
    upd sc3 rootMesh (set_position Zero)
  | None =>
    upd (upd sc1 rootMesh (set_position pos)) rootMesh (set_rotation rot)
  end.

(** Two meshes side by side, used to run the definitions. *)
Definition unit_cube : Node :=
  mkNode None true (Some (mkVector3 1 1 1)) (Some Zero) (Some Zero)
         (mkVector3 (-1) 0 (-1)) (mkVector3 1 2 1).

Definition small_slab : Node :=
  mkNode None true (Some (mkVector3 1 1 1)) (Some Zero) (Some Zero)
         (mkVector3 0 0 0) (mkVector3 0.5 0.1 0.5).

(** A wrapper node without geometry: a [TransformNode]. *)
Definition wrapper : Node :=
  mkNode None false (Some (mkVector3 1 1 1)) (Some Zero) (Some Zero) Zero Zero.

(** A camera: it has a position and a rotation, and no scaling. *)
Definition camera_node : Node :=
  mkNode None false None (Some (mkVector3 0 1.6 0)) (Some Zero) Zero Zero.

(** A directional light: it has a position, and neither a rotation nor a
    scaling. *)
Definition light_node : Node :=
  mkNode None false None (Some (mkVector3 0 10 0)) None Zero Zero.

(** A mesh whose geometry is a single point. *)
Definition point_mesh : Node :=
  mkNode None true (Some (mkVector3 1 1 1)) (Some Zero) (Some Zero)
         (mkVector3 1 1 1) (mkVector3 1 1 1).

(** A small scene: mesh 1 under the wrapper 2, mesh 3 without parent,
    mesh 4 under the camera 5, mesh 6 under the light 7, the point 8. *)
Definition demo_scene : Scene :=
  fun i => match i with
           | 1 => set_parent (Some 2) unit_cube
           | 2 => wrapper
           | 3 => small_slab
           | 4 => set_parent (Some 5) unit_cube
           | 6 => set_parent (Some 7) unit_cube
           | 7 => light_node
           | 8 => point_mesh
           | _ => camera_node
           end.

Definition demo_world : World := mkWorld demo_scene [] true [].

(** The node has a parent. *)
Definition has_parent (sc : Scene) (m : ident) : Prop := parent (sc m) <> None.

(** The node that receives the rotation in the game scene: the root's
    parent when it has a [position] and a [rotation] property, the root
    when the parent has no [position] property (or there is no parent),
    and no node when the parent has a [position] and no [rotation]. *)
Definition rotation_target (sc : Scene) (rootMesh : ident) : option ident :=
  match parent_with position sc rootMesh with
  | Some p => if isSome (rotation (sc p)) then Some p else None
  | None => Some rootMesh
  end.

(** What a placement does to the store [sc], giving [sc']: the scale [v]
    on the scale target, the position [pos] on the position target, the
    origin on the root when the position went to its parent, the rotation
    (when [loadAsset] takes one) on the rotation target, and nothing
    else. *)
Record placement (sc sc' : Scene) (rootMesh : ident) (v pos : Vector3)
    (rot : option Vector3) : Prop := mkPlacement {
  placed_scale : scaling (sc' (scale_target sc rootMesh)) = Some v;
  placed_position : position (sc' (position_target sc rootMesh)) = Some pos;
  placed_reset :
    position_target sc rootMesh <> rootMesh ->
    position (sc' rootMesh) = Some Zero;
  placed_rotation :
    forall r t, rot = Some r -> rotation_target sc rootMesh = Some t ->
                rotation (sc' t) = Some r;
  frame_scaling :
    forall j, j <> scale_target sc rootMesh -> scaling (sc' j) = scaling (sc j);
  frame_position :
    forall j, j <> position_target sc rootMesh -> j <> rootMesh ->
              position (sc' j) = position (sc j);
  frame_rotation :
    forall j, rot = None \/ rotation_target sc rootMesh <> Some j ->
              rotation (sc' j) = rotation (sc j);
  frame_parent : forall j, parent (sc' j) = parent (sc j);
  frame_class : forall j, instanceof_Mesh (sc' j) = instanceof_Mesh (sc j);
  frame_box :
    forall j, minimumWorld (sc' j) = minimumWorld (sc j)
              /\ maximumWorld (sc' j) = maximumWorld (sc j)
}.

(** ** Batches of loads *)

(** A placement request: the arguments of one call of [loadAsset]. *)
Record PlacementRequest : Set := mkRequest {
  req_folderPath : string;
  req_fileName : string;
  req_position : Vector3;
  req_rotation : Vector3;
  req_name : string;
  req_targetSize : number
}.

(** A request together with the way its loader promise settles. *)
Definition Load : Set := (PlacementRequest * LoaderOutcome)%type.

Definition load_name (l : Load) : string := req_name (fst l).

Definition AssetTest_task (l : Load) : M Value :=
  AssetTestScene.loadAsset (req_folderPath (fst l)) (req_fileName (fst l))
    (req_position (fst l)) (req_name (fst l)) (req_targetSize (fst l)) (snd l).

Definition ArcheryGame_task (l : Load) : M Value :=
  ArcheryGameScene.loadAsset (req_folderPath (fst l)) (req_fileName (fst l))
    (req_position (fst l)) (req_rotation (fst l)) (req_name (fst l))
    (req_targetSize (fst l)) (snd l).

(** The load succeeds: the loader resolved and returned at least one
    [Mesh]. *)
Definition succeeds (sc : Scene) (l : Load) : bool :=
  match snd l with
  | Resolved rm => existsb (fun m => instanceof_Mesh (sc m)) rm
  | Rejected _ => false
  end.

(** The elements of [l] in the order in which [order] names them. *)
Definition in_completion_order {A : Type} (l : list A) (order : list nat)
    : list A :=
  flat_map (fun i => match nth_error l i with
                     | Some a => [a]
                     | None => []
                     end) order.

(** Three requests of the test scene with a missing arrow file. *)
Definition demo_loads : list Load :=
  [(mkRequest "recurve_bow" "scene.gltf" (mkVector3 (-4) 1 0) Zero
              "Recurve Bow" 2.5, Resolved [1]);
   (mkRequest "arrow" "scene.gltf" (mkVector3 0 1 0) Zero "Arrow" 5,
    Rejected (ErrorObject "Unable to load /assets/arrow/scene.gltf"));
   (mkRequest "target" "scene.gltf" (mkVector3 4 1 0) Zero "Target" 3,
    Resolved [3])].

(** A promise that fulfilled. *)
Definition fulfilled (o : option (option (Completion Value))) : Prop :=
  exists v, o = Some (Some (Normal v)).

(** What one run of a load task [task l] does to the world: it ends
    normally, appends the name of [l] exactly when [l] succeeds, leaves
    [loading] and the class of every node alone, only adds to the console,
    and logs the error of a rejected load. *)
Definition task_step (task : Load -> M Value) : Prop :=
  forall (l : Load) (w : World),
    exists v sc' c,
      task l w
      = (Normal v,
         mkWorld sc'
                 (loadedAssets w
                  ++ (if succeeds (scene w) l then [load_name l] else []))
                 (loading w) (console w ++ c))
      /\ (forall j, instanceof_Mesh (sc' j) = instanceof_Mesh (scene w j))
      /\ (forall e, snd l = Rejected e ->
                    In (error_loading (load_name l) e) c).

(** From [sc] to [sc'] no node changed class or parent, and no node lost a
    [scaling] or [position] property. *)
Definition keeps (sc sc' : Scene) : Prop :=
  forall j,
    instanceof_Mesh (sc' j) = instanceof_Mesh (sc j)
    /\ parent (sc' j) = parent (sc j)
    /\ (isSome (scaling (sc j)) = true -> isSome (scaling (sc' j)) = true)
    /\ (isSome (position (sc j)) = true -> isSome (position (sc' j)) = true).

(** ** Further notions *)

(** Two numbers that [==] does not tell apart: equal, [0] and [-0]
    included. *)
Definition same_number (a b : number) : Prop := (a =? b)%float = true.

(** Two vectors equal as numbers on every axis. *)
Definition same_vector (u v : Vector3) : Prop :=
  same_number (x u) (x v) /\ same_number (y u) (y v)
  /\ same_number (z u) (z v).

(** Two results of [getBoundingBox] with the same corners. *)
Definition same_corners (r r' : option BoundingBox) : Prop :=
  match r, r' with
  | Some bb, Some bb' =>
    same_vector (min bb) (min bb') /\ same_vector (max bb) (max bb')
  | None, None => True
  | _, _ => False
  end.

(** The own box of a node. *)
Definition own_box (m : Node) : BoundingBox :=
  mkBoundingBox (minimumWorld m) (maximumWorld m)
                (subtract (maximumWorld m) (minimumWorld m)).

(** An instanced mesh: an [AbstractMesh] that is not a [Mesh]. *)
Definition instanced_cube : Node :=
  mkNode None false (Some (mkVector3 1 1 1)) (Some Zero) (Some Zero)
         (mkVector3 (-3) (-3) (-3)) (mkVector3 3 3 3).

(** A mesh whose box lies at infinity on the x axis: its extent there is
    [Infinity - Infinity], which is [NaN]. *)
Definition far_mesh : Node :=
  mkNode None true (Some (mkVector3 1 1 1)) (Some Zero) (Some Zero)
         (mkVector3 infinity 0 0) (mkVector3 infinity 1 1).

(** The small scene with [far_mesh] as node 9. *)
Definition far_scene : Scene :=
  fun i => match i with 9 => far_mesh | _ => demo_scene i end.

Definition far_world : World := mkWorld far_scene [] true [].

(** What [ArcheryGameScene.loadAsset] returns for a loader outcome, read in
    the store [sc]: the root when the loader resolved with at least one
    [Mesh], [null] otherwise. *)
Definition game_result (sc : Scene) (o : LoaderOutcome) : Value :=
  match o with
  | Resolved rm =>
    if existsb (fun m => instanceof_Mesh (sc m)) rm
    then NodeRef (rootMesh_of sc rm)
    else null
  | Rejected _ => null
  end.

(** The world in which the loads of a batch have all settled, before the
    callback of the barrier runs. *)
Definition settled (tasks : list (M Value)) (order : list nat) (w : World)
    : World :=
  snd (settle_all tasks order (repeat None (List.length tasks)) w).

(** The nodes a placement on the root [rootMesh] can write: the root and
    its parent. *)
Definition touched (sc : Scene) (rootMesh : ident) : list ident :=
  rootMesh :: match parent (sc rootMesh) with
              | Some p => [p]
              | None => []
              end.

(** The nodes [loadAsset] reads or writes for the load [l] in the store
    [sc]: the nodes of [result.meshes], the root and the root's parent. *)
Definition footprint (sc : Scene) (l : Load) : list ident :=
  match snd l with
  | Resolved (first :: rest) =>
    (first :: rest) ++ touched sc (rootMesh_of sc (first :: rest))
  | _ => []
  end.

(** The store [AssetTestScene.loadAsset] leaves for the load [l] when it
    starts in the store [sc]. *)
Definition AssetTest_effect (sc : Scene) (l : Load) : Scene :=
  match snd l with
  | Resolved rm =>
    match AssetTestScene.getBoundingBox (map sc (usable_meshes sc rm)) with
    | Some bb =>
      AssetTest_store_after sc (rootMesh_of sc rm)
        (AssetTestScene.scaleFactor (req_targetSize (fst l)) bb)
        (req_position (fst l))
    | None => sc
    end
  | Rejected _ => sc
  end.

(** The store [ArcheryGameScene.loadAsset] leaves for the load [l] when it
    starts in the store [sc]. *)
Definition ArcheryGame_effect (sc : Scene) (l : Load) : Scene :=
  match snd l with
  | Resolved rm =>
    match ArcheryGameScene.getBoundingBox (map sc (usable_meshes sc rm)) with
    | Some bb =>
      ArcheryGame_store_after sc (rootMesh_of sc rm)
        (ArcheryGameScene.scaleFactor (req_targetSize (fst l)) bb)
        (req_position (fst l)) (req_rotation (fst l))
    | None => sc
    end
  | Rejected _ => sc
  end.

(** ** The rendered panels *)

(** An item of the list of loaded assets: the placeholder [<li>], or the
    [<li key={asset}>] of a loaded asset. *)
Inductive ListItem : Set :=
| plain_item (text : string)
| asset_item (key : string) (asset : string).

(** What a scene component renders over its canvas: the loading panel of
    [{loading && ...}], when there is one, and the panel with its heading,
    its list and its two lines of help. *)
Record View : Set := mkView {
  loading_panel : option string;
  heading : string;
  items : list ListItem;
  help : list string
}.

(** [{loadedAssets.length === 0 && <li>placeholder</li>}] followed by
    [{loadedAssets.map((asset) => <li key={asset}>... {asset}</li>)}]. *)
Definition list_items (placeholder : string) (loadedAssets : list string)
    : list ListItem :=
  (if Nat.eqb (List.length loadedAssets) 0
   then [plain_item placeholder] else [])
  ++ map (fun asset => asset_item asset asset) loadedAssets.

(** The [return] of [AssetTestScene]. *)
Definition AssetTest_view (w : World) : View :=
  mkView (if loading w then Some "Loading assets..." else None)
         "Loaded Assets:"
         (list_items "None yet..." (loadedAssets w))
         ["Use mouse to rotate camera"; "Scroll to zoom"].

(** The [return] of [ArcheryGameScene]. *)
Definition ArcheryGame_view (w : World) : View :=
  mkView (if loading w then Some "Loading game scene..." else None)
         "Archery Game"
         (list_items "Loading assets..." (loadedAssets w))
         ["Use mouse to look around"; "Ready for shooting mechanics"].

(** The React keys of the items of a list. *)
Definition item_keys (l : list ListItem) : list string :=
  flat_map (fun i => match i with
                     | asset_item k _ => [k]
                     | plain_item _ => []
                     end) l.

(** The names a batch appends: those of the loads that succeed, in the
    order of completion. *)
Definition loaded_names (sc : Scene) (loads : list Load) (order : list nat)
    : list string :=
  map load_name (filter (succeeds sc) (in_completion_order loads order)).

(** * Properties *)

(** ** The order of binary64 numbers *)

Ltac cmp_cases :=
  repeat match goal with
  | |- context [Z.compare ?a ?b] => destruct (Z.compare_spec a b); subst
  | |- context [Pos.compare_cont Eq ?a ?b] =>
    change (Pos.compare_cont Eq a b) with (Pos.compare a b);
    destruct (Pos.compare_spec a b); subst
  | H : context [Z.compare ?a ?b] |- _ => destruct (Z.compare_spec a b); subst
  | H : context [Pos.compare_cont Eq ?a ?b] |- _ =>
    change (Pos.compare_cont Eq a b) with (Pos.compare a b) in H;
    destruct (Pos.compare_spec a b); subst
  end; simpl in *; try discriminate; try reflexivity; try lia.

Lemma SFleb_trans (a b c : spec_float) :
  SFleb a b = true -> SFleb b c = true -> SFleb a c = true.
Proof.
  unfold SFleb, SFcompare.
  destruct a as [[]|[]| |[] ma ea], b as [[]|[]| |[] mb eb],
           c as [[]|[]| |[] mc ec];
    simpl; intros H1 H2; try discriminate; try reflexivity; cmp_cases.
Qed.

Lemma SFltb_false_leb (a b : spec_float) :
  a <> S754_nan -> b <> S754_nan -> SFltb a b = false -> SFleb b a = true.
Proof.
  unfold SFleb, SFltb, SFcompare.
  destruct a as [[]|[]| |[] ma ea], b as [[]|[]| |[] mb eb];
    simpl; intros Ha Hb H1; try discriminate; try reflexivity;
    try congruence; cmp_cases.
Qed.

Lemma SFltb_leb (a b : spec_float) : SFltb a b = true -> SFleb a b = true.
Proof.
  unfold SFleb, SFltb. destruct (SFcompare a b) as [[]|]; simpl; congruence.
Qed.

Lemma SFeqb_refl (a : spec_float) : a <> S754_nan -> SFeqb a a = true.
Proof.
  unfold SFeqb, SFcompare.
  destruct a as [[]|[]| |[] ma ea]; simpl; intros; try congruence; cmp_cases.
Qed.

Lemma SFleb_refl (a : spec_float) : a <> S754_nan -> SFleb a a = true.
Proof.
  unfold SFleb, SFcompare.
  destruct a as [[]|[]| |[] ma ea]; simpl; intros; try congruence; cmp_cases.
Qed.

Lemma not_nan_Prim2SF (a : number) : is_nan a = false -> Prim2SF a <> S754_nan.
Proof.
  unfold is_nan. rewrite eqb_spec. intros H E. rewrite E in H. discriminate H.
Qed.

Lemma leb_trans (a b c : number) :
  (a <=? b)%float = true -> (b <=? c)%float = true -> (a <=? c)%float = true.
Proof. rewrite !leb_spec. apply SFleb_trans. Qed.

Lemma leb_refl (a : number) : is_nan a = false -> (a <=? a)%float = true.
Proof. intros H. rewrite leb_spec. apply SFleb_refl, not_nan_Prim2SF, H. Qed.

Lemma ltb_leb (a b : number) :
  (a <? b)%float = true -> (a <=? b)%float = true.
Proof. rewrite ltb_spec, leb_spec. apply SFltb_leb. Qed.

Lemma ltb_false_leb (a b : number) :
  is_nan a = false -> is_nan b = false ->
  (a <? b)%float = false -> (b <=? a)%float = true.
Proof.
  intros Ha Hb. rewrite ltb_spec, leb_spec.
  apply SFltb_false_leb; apply not_nan_Prim2SF; assumption.
Qed.

(** ** Running minimum and maximum along one axis *)

Lemma fold_minimize_axis (l : list number) : forall a : number,
  is_nan a = false -> Forall (fun b => is_nan b = false) l ->
  let r := fold_left minimize_axis l a in
  is_nan r = false /\ (r <=? a)%float = true /\
  (forall b, In b l -> (r <=? b)%float = true) /\ (r = a \/ In r l).
Proof.
  induction l as [|h t IH]; intros a Ha Hl; simpl.
  - repeat split; auto using leb_refl; contradiction.
  - inversion Hl as [|? ? Hh Ht]; subst.
    destruct (h <? a)%float eqn:E.
    + assert (Ea : minimize_axis a h = h) by (unfold minimize_axis; now rewrite E).
      rewrite Ea. destruct (IH h Hh Ht) as (N & Lh & Lt & Mem).
      split; [exact N|]. split; [|split].
      * eapply leb_trans; [exact Lh | apply ltb_leb, E].
      * intros b [<- | Hb]; auto.
      * destruct Mem as [Mem | Mem]; auto.
    + assert (Ea : minimize_axis a h = a) by (unfold minimize_axis; now rewrite E).
      rewrite Ea. destruct (IH a Ha Ht) as (N & La & Lt & Mem).
      split; [exact N|]. split; [exact La|split].
      * intros b [<- | Hb]; auto.
        eapply leb_trans; [exact La | apply ltb_false_leb; assumption].
      * destruct Mem as [Mem | Mem]; auto.
Qed.

Lemma fold_maximize_axis (l : list number) : forall a : number,
  is_nan a = false -> Forall (fun b => is_nan b = false) l ->
  let r := fold_left maximize_axis l a in
  is_nan r = false /\ (a <=? r)%float = true /\
  (forall b, In b l -> (b <=? r)%float = true) /\ (r = a \/ In r l).
Proof.
  induction l as [|h t IH]; intros a Ha Hl; simpl.
  - repeat split; auto using leb_refl; contradiction.
  - inversion Hl as [|? ? Hh Ht]; subst.
    destruct (a <? h)%float eqn:E.
    + assert (Ea : maximize_axis a h = h) by (unfold maximize_axis; now rewrite E).
      rewrite Ea. destruct (IH h Hh Ht) as (N & Lh & Lt & Mem).
      split; [exact N|]. split; [|split].
      * eapply leb_trans; [apply ltb_leb, E | exact Lh].
      * intros b [<- | Hb]; auto.
      * destruct Mem as [Mem | Mem]; auto.
    + assert (Ea : maximize_axis a h = a) by (unfold maximize_axis; now rewrite E).
      rewrite Ea. destruct (IH a Ha Ht) as (N & La & Lt & Mem).
      split; [exact N|]. split; [exact La|split].
      * intros b [<- | Hb]; auto.
        eapply leb_trans; [apply (ltb_false_leb a h Ha Hh E) | exact La].
      * destruct Mem as [Mem | Mem]; auto.
Qed.

(** On a list of [Mesh] instances the loop of [getBoundingBox] folds
    [Minimize] and [Maximize], axis by axis. *)
Section Axis.

Variable ax : Vector3 -> number.
Hypothesis ax_Minimize :
  forall u v, ax (Minimize u v) = minimize_axis (ax u) (ax v).
Hypothesis ax_Maximize :
  forall u v, ax (Maximize u v) = maximize_axis (ax u) (ax v).

Lemma forEach_axis (ms : list Node) : forall lo hi : Vector3,
  Forall (fun m => instanceof_Mesh m = true) ms ->
  ax (fst (fold_left AssetTestScene.forEach_step ms (lo, hi)))
  = fold_left minimize_axis (map (fun m => ax (minimumWorld m)) ms) (ax lo)
  /\ ax (snd (fold_left AssetTestScene.forEach_step ms (lo, hi)))
  = fold_left maximize_axis (map (fun m => ax (maximumWorld m)) ms) (ax hi).
Proof.
  induction ms as [|m ms IH]; intros lo hi Hm; simpl; [auto|].
  inversion Hm as [|? ? Hi Hms]; subst. rewrite Hi.
  rewrite <- ax_Minimize, <- ax_Maximize. apply IH, Hms.
Qed.

Lemma running_box_axis (first : Node) (rest : list Node) :
  Forall (fun m => instanceof_Mesh m = true) (first :: rest) ->
  Forall (fun m => is_nan (ax (minimumWorld m)) = false) (first :: rest) ->
  Forall (fun m => is_nan (ax (maximumWorld m)) = false) (first :: rest) ->
  let acc := fold_left AssetTestScene.forEach_step (first :: rest)
               (minimumWorld first, maximumWorld first) in
  is_minimum_of (ax (fst acc))
                (map (fun m => ax (minimumWorld m)) (first :: rest))
  /\ is_maximum_of (ax (snd acc))
                   (map (fun m => ax (maximumWorld m)) (first :: rest)).
Proof.
  intros Hm Hlo Hhi acc.
  destruct (forEach_axis (first :: rest) (minimumWorld first)
              (maximumWorld first) Hm) as [Elo Ehi].
  fold acc in Elo, Ehi. rewrite Elo, Ehi.
  assert (Nlo : is_nan (ax (minimumWorld first)) = false)
    by (inversion Hlo; assumption).
  assert (Nhi : is_nan (ax (maximumWorld first)) = false)
    by (inversion Hhi; assumption).
  split.
  - destruct (fold_minimize_axis
                (map (fun m => ax (minimumWorld m)) (first :: rest))
                (ax (minimumWorld first)) Nlo) as (_ & _ & Low & Mem).
    { apply Forall_map. exact Hlo. }
    split; [|exact Low].
    destruct Mem as [-> | Mem]; [left; reflexivity | exact Mem].
  - destruct (fold_maximize_axis
                (map (fun m => ax (maximumWorld m)) (first :: rest))
                (ax (maximumWorld first)) Nhi) as (_ & _ & Up & Mem).
    { apply Forall_map. exact Hhi. }
    split; [|exact Up].
    destruct Mem as [-> | Mem]; [left; reflexivity | exact Mem].
Qed.

End Axis.

(** ** getBoundingBox *)

Lemma getBoundingBox_same :
  ArcheryGameScene.getBoundingBox = AssetTestScene.getBoundingBox.
Proof. reflexivity. Qed.

Lemma Forall_Mesh_with_box_axis (ax : Vector3 -> number) (ms : list Node) :
  (forall v, numeric v -> is_nan (ax v) = false) ->
  Forall Mesh_with_box ms ->
  Forall (fun m => instanceof_Mesh m = true) ms
  /\ Forall (fun m => is_nan (ax (minimumWorld m)) = false) ms
  /\ Forall (fun m => is_nan (ax (maximumWorld m)) = false) ms.
Proof.
  intros Hax H. repeat split; eapply Forall_impl; try exact H;
    intros m (Hi & Hlo & Hhi); auto.
Qed.

Lemma getBoundingBox_union_box (meshes : list Node) :
  Forall Mesh_with_box meshes ->
  union_box meshes (AssetTestScene.getBoundingBox meshes).
Proof.
  intros H. destruct meshes as [|first rest]; [reflexivity|].
  unfold union_box, AssetTestScene.getBoundingBox.
  destruct (Forall_Mesh_with_box_axis x (first :: rest)) as (Hm & Hxl & Hxh);
    [intros v (Hv & _ & _); exact Hv | exact H |].
  destruct (Forall_Mesh_with_box_axis y (first :: rest)) as (_ & Hyl & Hyh);
    [intros v (_ & Hv & _); exact Hv | exact H |].
  destruct (Forall_Mesh_with_box_axis z (first :: rest)) as (_ & Hzl & Hzh);
    [intros v (_ & _ & Hv); exact Hv | exact H |].
  pose proof (running_box_axis x (fun _ _ => eq_refl) (fun _ _ => eq_refl)
                first rest Hm Hxl Hxh) as [Xl Xh].
  pose proof (running_box_axis y (fun _ _ => eq_refl) (fun _ _ => eq_refl)
                first rest Hm Hyl Hyh) as [Yl Yh].
  pose proof (running_box_axis z (fun _ _ => eq_refl) (fun _ _ => eq_refl)
                first rest Hm Hzl Hzh) as [Zl Zh].
  destruct (fold_left AssetTestScene.forEach_step (first :: rest)
              (minimumWorld first, maximumWorld first)) as [lo hi].
  exists (mkBoundingBox lo hi (subtract hi lo)).
  repeat split; assumption || reflexivity || apply Xl || apply Xh
    || apply Yl || apply Yh || apply Zl || apply Zh.
Qed.

(** C2.  For a list of [Mesh] nodes whose world bounding boxes have numeric
    corners, [getBoundingBox] of either scene file returns, when the list
    is not empty, the box whose [min] is the component-wise minimum of the
    nodes' minimum corners, whose [max] is the component-wise maximum of
    their maximum corners and whose [size] is [max - min] on each axis;
    for the empty list it returns no box. *)
Theorem getBoundingBox_is_union_box (meshes : list Node) :
  Forall Mesh_with_box meshes ->
  union_box meshes (AssetTestScene.getBoundingBox meshes)
  /\ union_box meshes (ArcheryGameScene.getBoundingBox meshes).
Proof.
  intros H. rewrite getBoundingBox_same.
  split; apply getBoundingBox_union_box, H.
Qed.

Lemma getBoundingBox_is_union_box_witness :
  Forall Mesh_with_box [unit_cube; small_slab]
  /\ union_box [unit_cube; small_slab]
       (AssetTestScene.getBoundingBox [unit_cube; small_slab])
  /\ union_box [unit_cube; small_slab]
       (ArcheryGameScene.getBoundingBox [unit_cube; small_slab])
  /\ union_box [] (AssetTestScene.getBoundingBox [])
  /\ union_box [] (ArcheryGameScene.getBoundingBox []).
Proof.
  assert (H : Forall Mesh_with_box [unit_cube; small_slab])
    by (repeat constructor).
  split; [exact H|].
  split; [apply (getBoundingBox_is_union_box [unit_cube; small_slab] H)|].
  split; [apply (getBoundingBox_is_union_box [unit_cube; small_slab] H)|].
  apply (getBoundingBox_is_union_box [] (Forall_nil _)).
Defined.

(** ** The object store *)

Lemma upd_same (sc : Scene) (i : ident) (f : Node -> Node) :
  upd sc i f i = f (sc i).
Proof. unfold upd. now rewrite Nat.eqb_refl. Qed.

Lemma upd_other (sc : Scene) (i j : ident) (f : Node -> Node) :
  j <> i -> upd sc i f j = sc j.
Proof. intros H. unfold upd. now apply Nat.eqb_neq in H as ->. Qed.

Ltac store_cases :=
  unfold upd in *;
  repeat match goal with
         | |- context [Nat.eqb ?a ?b] => destruct (Nat.eqb_spec a b); subst
         end;
  simpl; try reflexivity; try congruence.

(** An update that keeps [parent] and the presence of [prop] keeps the
    outcome of [node.parent && 'prop' in node.parent]. *)
Lemma parent_with_upd (prop : Node -> option Vector3) (sc : Scene)
    (i : ident) (f : Node -> Node) (node : ident) :
  (forall n, parent (f n) = parent n) ->
  (forall n, isSome (prop (f n)) = isSome (prop n)) ->
  parent_with prop (upd sc i f) node = parent_with prop sc node.
Proof.
  intros Hp Hs. unfold parent_with.
  assert (E : forall j, parent (upd sc i f j) = parent (sc j))
    by (intros j; store_cases; apply Hp).
  rewrite E. destruct (parent (sc node)) as [p|]; [|reflexivity].
  assert (E' : isSome (prop (upd sc i f p)) = isSome (prop (sc p)))
    by (store_cases; apply Hs).
  now rewrite E'.
Qed.

(** Assigning the node's own [position] does not change the test on its
    parent, unless the node is its own parent. *)
Lemma parent_with_position_upd_self (sc : Scene) (node : ident) (v : Vector3) :
  parent (sc node) <> Some node ->
  parent_with position (upd sc node (set_position v)) node
  = parent_with position sc node.
Proof.
  intros H. unfold parent_with. rewrite upd_same. simpl.
  destruct (parent (sc node)) as [p|]; [|reflexivity].
  rewrite upd_other; [reflexivity | congruence].
Qed.

Lemma getBoundingBox_cons (m : Node) (ms : list Node) :
  exists bb, AssetTestScene.getBoundingBox (m :: ms) = Some bb.
Proof.
  unfold AssetTestScene.getBoundingBox.
  destruct (fold_left _ _ _) as [lo hi]. eauto.
Qed.

(** ** One run of loadAsset *)

Lemma box_gives_meshes (sc : Scene) (rm : list ident) (bb : BoundingBox) :
  AssetTestScene.getBoundingBox (map sc (usable_meshes sc rm)) = Some bb ->
  exists first rest m ms,
    rm = first :: rest /\ usable_meshes sc rm = m :: ms.
Proof.
  intros H. destruct rm as [|first rest]; [discriminate H|].
  destruct (usable_meshes sc (first :: rest)) as [|m ms] eqn:E;
    [discriminate H|].
  now exists first, rest, m, ms.
Qed.

Lemma AssetTest_loadAsset_placed (w : World) (rm : list ident)
    (fp fn : string) (pos : Vector3) (name : string) (ts : number)
    (bb : BoundingBox) :
  AssetTestScene.getBoundingBox (map (scene w) (usable_meshes (scene w) rm))
  = Some bb ->
  AssetTestScene.loadAsset fp fn pos name ts (Resolved rm) w
  = (Normal undefined,
     mkWorld (AssetTest_store_after (scene w) (rootMesh_of (scene w) rm)
                (AssetTestScene.scaleFactor ts bb) pos)
             (loadedAssets w ++ [name]) (loading w)
             ((console w
               ++ [log_scaled name (AssetTestScene.currentSize bb) ts
                              (AssetTestScene.scaleFactor ts bb)])
              ++ [log_loaded_meshes name (List.length rm) pos])).
Proof.
  intros H. destruct (box_gives_meshes _ _ _ H) as (first & rest & m & ms & -> & E).
  unfold AssetTestScene.loadAsset, AssetTestScene.loadAsset_try, try_catch, bind.
  cbn [await ret get_scene scene fst snd].
  unfold usable_meshes in *. rewrite E in *. rewrite H.
  unfold AssetTest_store_after, scale_target, rootMesh_of. cbn [hd].
  set (root := find_rootMesh (scene w) (first :: rest) first).
  destruct (parent_with scaling (scene w) root) as [p|]; cbn;
    match goal with
    | |- context [parent_with position ?sc root] =>
      destruct (parent_with position sc root)
    end; reflexivity.
Qed.

Lemma ArcheryGame_loadAsset_placed (w : World) (rm : list ident)
    (fp fn : string) (pos rot : Vector3) (name : string) (ts : number)
    (bb : BoundingBox) :
  ArcheryGameScene.getBoundingBox (map (scene w) (usable_meshes (scene w) rm))
  = Some bb ->
  ArcheryGameScene.loadAsset fp fn pos rot name ts (Resolved rm) w
  = (Normal (NodeRef (rootMesh_of (scene w) rm)),
     mkWorld (ArcheryGame_store_after (scene w) (rootMesh_of (scene w) rm)
                (ArcheryGameScene.scaleFactor ts bb) pos rot)
             (loadedAssets w ++ [name]) (loading w)
             (console w ++ [log_loaded_at name pos])).
Proof.
  intros H. pose proof H as H'. rewrite getBoundingBox_same in H'.
  destruct (box_gives_meshes _ _ _ H') as (first & rest & m & ms & -> & E).
  unfold ArcheryGameScene.loadAsset, ArcheryGameScene.loadAsset_try,
    try_catch, bind.
  cbn [await ret get_scene scene fst snd].
  unfold usable_meshes in *. rewrite E in *. rewrite H.
  unfold ArcheryGame_store_after, scale_target, rootMesh_of. cbn [hd].
  set (root := find_rootMesh (scene w) (first :: rest) first).
  destruct (parent_with scaling (scene w) root) as [p|]; cbn;
    match goal with
    | |- context [parent_with position ?sc root] =>
      destruct (parent_with position sc root) as [q|]
    end; cbn; try reflexivity;
    match goal with
    | |- context [isSome ?r] => destruct (isSome r)
    end; reflexivity.
Qed.

Ltac store_after_cases :=
  unfold AssetTest_store_after, ArcheryGame_store_after;
  cbv zeta;
  repeat match goal with
         | |- context [match parent_with ?f ?sc ?r with _ => _ end] =>
           destruct (parent_with f sc r) eqn:?
         | |- context [if isSome ?r then _ else _] => destruct (isSome r) eqn:?
         end.

Lemma AssetTest_store_after_scaling (sc : Scene) (root : ident)
    (s : number) (pos : Vector3) :
  scaling (AssetTest_store_after sc root s pos (scale_target sc root))
  = Some (mkVector3 s s s).
Proof. store_after_cases; store_cases. Qed.

Lemma ArcheryGame_store_after_scaling (sc : Scene) (root : ident)
    (s : number) (pos rot : Vector3) :
  scaling (ArcheryGame_store_after sc root s pos rot (scale_target sc root))
  = Some (mkVector3 s s s).
Proof. store_after_cases; store_cases. Qed.

(** C1.  When the [Mesh] nodes of a loaded asset have the combined bounding
    box [bb], [loadAsset] of either scene file leaves on the node chosen
    for the scale (the root's parent when it has a [scaling] property, the
    root otherwise) the scaling [(s, s, s)] with
    [s = targetSize / currentSize] and
    [currentSize = max(|size.x|, |size.y|, |size.z|)]: the same factor on
    the three axes.  This holds for every box, and so for the
    non-degenerate ones. *)
Theorem scale_is_targetSize_over_currentSize (w : World) (rm : list ident)
    (fp fn : string) (pos rot : Vector3) (name : string) (ts : number)
    (bb : BoundingBox) :
  AssetTestScene.getBoundingBox (map (scene w) (usable_meshes (scene w) rm))
  = Some bb ->
  let root := rootMesh_of (scene w) rm in
  let currentSize := Math_max [Math_abs (x (size bb));
                               Math_abs (y (size bb));
                               Math_abs (z (size bb))] in
  let s := (ts / currentSize)%float in
  scaling (scene (snd (AssetTestScene.loadAsset fp fn pos name ts
                         (Resolved rm) w))
                 (scale_target (scene w) root))
  = Some (mkVector3 s s s)
  /\ scaling (scene (snd (ArcheryGameScene.loadAsset fp fn pos rot name ts
                            (Resolved rm) w))
                    (scale_target (scene w) root))
     = Some (mkVector3 s s s).
Proof.
  intros H root currentSize s.
  rewrite (AssetTest_loadAsset_placed w rm fp fn pos name ts bb H).
  rewrite (ArcheryGame_loadAsset_placed w rm fp fn pos rot name ts bb H).
  cbn [snd scene]. split.
  - apply AssetTest_store_after_scaling.
  - apply ArcheryGame_store_after_scaling.
Qed.

Lemma scale_is_targetSize_over_currentSize_witness :
  scaling (scene (snd (AssetTestScene.loadAsset "target" "scene.gltf"
                         (mkVector3 4 1 0) "Target" 3
                         (Resolved [1]) demo_world)) 2)
  = Some (mkVector3 1.5 1.5 1.5)
  /\ scaling (scene (snd (ArcheryGameScene.loadAsset "target" "scene.gltf"
                            (mkVector3 4 1 0) Zero "Target" 3
                            (Resolved [1]) demo_world)) 2)
     = Some (mkVector3 1.5 1.5 1.5).
Proof.
  exact (scale_is_targetSize_over_currentSize demo_world [1]
           "target" "scene.gltf" (mkVector3 4 1 0) Zero "Target" 3
           (mkBoundingBox (mkVector3 (-1) 0 (-1)) (mkVector3 1 2 1)
                          (mkVector3 2 2 2))
           eq_refl).
Defined.

(** ** Root selection *)

Lemma find_skips_parented (sc : Scene) (pre : list ident) (l : list ident) :
  Forall (has_parent sc) pre ->
  find (fun mesh => negb (isSome (parent (sc mesh)))) (pre ++ l)
  = find (fun mesh => negb (isSome (parent (sc mesh)))) l.
Proof.
  induction 1 as [|m pre Hm _ IH]; [reflexivity|].
  simpl. unfold has_parent in Hm.
  destruct (parent (sc m)); [exact IH | congruence].
Qed.

(** C3.  The root node [loadAsset] picks from the loaded nodes
    [first :: rest] is the first node without parent, and is [first] when
    every node has a parent. *)
Theorem rootMesh_is_first_parentless (sc : Scene) (first : ident)
    (rest : list ident) :
  (forall pre r post,
     first :: rest = pre ++ r :: post ->
     Forall (has_parent sc) pre -> parent (sc r) = None ->
     find_rootMesh sc (first :: rest) first = r)
  /\ (Forall (has_parent sc) (first :: rest) ->
      find_rootMesh sc (first :: rest) first = first).
Proof.
  split.
  - intros pre r post E Hpre Hr. unfold find_rootMesh.
    rewrite E, find_skips_parented by exact Hpre.
    simpl. now rewrite Hr.
  - intros H. unfold find_rootMesh.
    rewrite <- (app_nil_r (first :: rest)), find_skips_parented by exact H.
    reflexivity.
Qed.

Lemma rootMesh_is_first_parentless_witness :
  find_rootMesh demo_scene [1; 4; 3; 2] 1 = 3
  /\ find_rootMesh demo_scene [4; 1] 4 = 4.
Proof.
  split.
  - apply (proj1 (rootMesh_is_first_parentless demo_scene 1 [4; 3; 2])
             [1; 4] 3 [2] eq_refl).
    + repeat constructor; discriminate.
    + reflexivity.
  - apply (proj2 (rootMesh_is_first_parentless demo_scene 4 [1])).
    repeat constructor; discriminate.
Defined.

(** ** The two files compute the same box and the same factor *)

(** C9.  [getBoundingBox] of [AssetTestScene.tsx] and of
    [ArcheryGameScene.tsx] return the same result on every list of
    meshes, and for the same bounding box and target size the two
    [loadAsset] compute the same [currentSize] and the same
    [scaleFactor]. *)
Theorem scene_files_agree :
  (forall meshes : list Node,
     AssetTestScene.getBoundingBox meshes
     = ArcheryGameScene.getBoundingBox meshes)
  /\ (forall boundingBox : BoundingBox,
        AssetTestScene.currentSize boundingBox
        = ArcheryGameScene.currentSize boundingBox)
  /\ (forall (targetSize : number) (boundingBox : BoundingBox),
        AssetTestScene.scaleFactor targetSize boundingBox
        = ArcheryGameScene.scaleFactor targetSize boundingBox).
Proof.
  split; [|split].
  - intros meshes. destruct meshes as [|first rest]; [reflexivity|].
    unfold AssetTestScene.getBoundingBox, ArcheryGameScene.getBoundingBox.
    assert (E : forall ms acc,
               fold_left AssetTestScene.forEach_step ms acc
               = fold_left ArcheryGameScene.forEach_step ms acc).
    { induction ms as [|m ms IH]; intros acc; [reflexivity|].
      simpl. rewrite IH. reflexivity. }
    now rewrite E.
  - intros boundingBox.
    unfold AssetTestScene.currentSize, ArcheryGameScene.currentSize.
    reflexivity.
  - intros targetSize boundingBox.
    unfold AssetTestScene.scaleFactor, ArcheryGameScene.scaleFactor,
      AssetTestScene.currentSize, ArcheryGameScene.currentSize.
    reflexivity.
Qed.

(** ** Where the transform goes *)

Lemma parent_with_Some (prop : Node -> option Vector3) (sc : Scene)
    (node p : ident) :
  parent_with prop sc node = Some p ->
  parent (sc node) = Some p /\ isSome (prop (sc p)) = true.
Proof.
  unfold parent_with. destruct (parent (sc node)) as [q|]; [|discriminate].
  destruct (isSome (prop (sc q))) eqn:E; [|discriminate].
  intros [= <-]. auto.
Qed.

Lemma parent_with_position_after_scale (sc : Scene) (root t : ident)
    (v pos : Vector3) :
  parent (sc root) <> Some root ->
  parent_with position
    (upd (upd sc t (set_scaling v)) root (set_position pos)) root
  = parent_with position sc root.
Proof.
  intros H.
  rewrite parent_with_position_upd_self.
  - apply parent_with_upd; intros n; reflexivity.
  - unfold upd. destruct (Nat.eqb root t); exact H.
Qed.

Ltac placement_fields Ep Er :=
  constructor; intros;
  unfold position_target, rotation_target in *; rewrite ?Ep, ?Er in *;
  try discriminate;
  repeat match goal with
         | H : Some _ = Some _ |- _ => injection H as H; subst
         end;
  store_cases; try (split; reflexivity);
  try solve [intuition congruence].

Lemma AssetTest_store_after_placement (sc : Scene) (root : ident)
    (s : number) (pos : Vector3) :
  parent (sc root) <> Some root ->
  placement sc (AssetTest_store_after sc root s pos) root
            (mkVector3 s s s) pos None.
Proof.
  intros H. unfold AssetTest_store_after. cbv zeta.
  rewrite parent_with_position_after_scale by exact H.
  destruct (parent_with position sc root) as [p|] eqn:Ep.
  - destruct (parent_with_Some _ _ _ _ Ep) as [Hp _].
    assert (p <> root) by congruence.
    placement_fields Ep Ep.
  - placement_fields Ep Ep.
Qed.

Lemma ArcheryGame_store_after_placement (sc : Scene) (root : ident)
    (s : number) (pos rot : Vector3) :
  parent (sc root) <> Some root ->
  placement sc (ArcheryGame_store_after sc root s pos rot) root
            (mkVector3 s s s) pos (Some rot).
Proof.
  intros H. unfold ArcheryGame_store_after. cbv zeta.
  rewrite parent_with_upd by (intros n; reflexivity).
  destruct (parent_with position sc root) as [p|] eqn:Ep.
  - destruct (parent_with_Some _ _ _ _ Ep) as [Hp _].
    assert (p <> root) by congruence.
    assert (E : isSome (rotation
                 (upd (upd sc (scale_target sc root)
                         (set_scaling (mkVector3 s s s)))
                      p (set_position pos) p))
                = isSome (rotation (sc p))) by store_cases.
    rewrite E. clear E. destruct (isSome (rotation (sc p))) eqn:Er;
      placement_fields Ep Er.
  - placement_fields Ep Ep.
Qed.

Lemma targets_coincide (sc : Scene) (root : ident) :
  (forall p, parent (sc root) = Some p ->
             isSome (scaling (sc p)) = isSome (position (sc p))) ->
  position_target sc root = scale_target sc root.
Proof.
  intros H. unfold position_target, scale_target, parent_with.
  destruct (parent (sc root)) as [p|]; [|reflexivity].
  rewrite (H p eq_refl). reflexivity.
Qed.

(** C4, as the code has it.  For every successful placement whose root is
    not its own parent: the scale goes to the root's parent when the
    parent has a [scaling] property and to the root otherwise; the
    position goes to the root's parent when the parent has a [position]
    property and to the root otherwise, and then the root's own position
    is reset to the origin; in the game scene the rotation goes to the
    parent when it has [position] and [rotation] properties, to the root
    when the parent has no [position] property, and to no node when the
    parent has a [position] and no [rotation]; the test scene assigns no
    rotation; every other field of every node is left as it was.  The
    position and the scale go to the same node when the parent has both
    properties or neither, or when there is no parent. *)
Theorem placement_of_loadAsset (w : World) (rm : list ident)
    (fp fn : string) (pos rot : Vector3) (name : string) (ts : number)
    (bb : BoundingBox) :
  AssetTestScene.getBoundingBox (map (scene w) (usable_meshes (scene w) rm))
  = Some bb ->
  parent (scene w (rootMesh_of (scene w) rm))
  <> Some (rootMesh_of (scene w) rm) ->
  let root := rootMesh_of (scene w) rm in
  let s := AssetTestScene.scaleFactor ts bb in
  placement (scene w)
            (scene (snd (AssetTestScene.loadAsset fp fn pos name ts
                           (Resolved rm) w)))
            root (mkVector3 s s s) pos None
  /\ placement (scene w)
               (scene (snd (ArcheryGameScene.loadAsset fp fn pos rot name ts
                              (Resolved rm) w)))
               root (mkVector3 s s s) pos (Some rot)
  /\ ((forall p, parent (scene w root) = Some p ->
                 isSome (scaling (scene w p)) = isSome (position (scene w p)))
      -> position_target (scene w) root = scale_target (scene w) root).
Proof.
  intros H Hself root s.
  rewrite (AssetTest_loadAsset_placed w rm fp fn pos name ts bb H).
  rewrite (ArcheryGame_loadAsset_placed w rm fp fn pos rot name ts bb H).
  cbn [snd scene]. split; [|split].
  - apply AssetTest_store_after_placement, Hself.
  - apply ArcheryGame_store_after_placement, Hself.
  - apply targets_coincide.
Qed.

Lemma placement_of_loadAsset_witness :
  placement demo_scene
            (scene (snd (AssetTestScene.loadAsset "target" "scene.gltf"
                           (mkVector3 4 1 0) "Target" 3
                           (Resolved [1]) demo_world)))
            1 (mkVector3 1.5 1.5 1.5) (mkVector3 4 1 0) None
  /\ placement demo_scene
               (scene (snd (ArcheryGameScene.loadAsset "target" "scene.gltf"
                              (mkVector3 4 1 0) (mkVector3 0 Math_PI 0)
                              "Target" 3 (Resolved [1]) demo_world)))
               1 (mkVector3 1.5 1.5 1.5) (mkVector3 4 1 0)
               (Some (mkVector3 0 Math_PI 0))
  /\ position_target demo_scene 1 = scale_target demo_scene 1.
Proof.
  destruct (placement_of_loadAsset demo_world [1] "target" "scene.gltf"
              (mkVector3 4 1 0) (mkVector3 0 Math_PI 0) "Target" 3
              (mkBoundingBox (mkVector3 (-1) 0 (-1)) (mkVector3 1 2 1)
                             (mkVector3 2 2 2))
              eq_refl) as (A & B & C).
  - discriminate.
  - split; [exact A|]. split; [exact B|].
    apply C. intros p [= <-]. reflexivity.
Defined.

(** C4 as the specification words it fails on a root whose parent can hold
    a position and no scale, such as the mesh 4 under the camera 5: in
    both scene files the scale goes to the mesh, the position (and in the
    game scene the rotation) to the camera, and the mesh's own position is
    reset to the origin. *)
Lemma position_misses_scale_target :
  let wt := snd (AssetTestScene.loadAsset "target" "scene.gltf"
                   (mkVector3 4 1 0) "Target" 3 (Resolved [4]) demo_world) in
  let wg := snd (ArcheryGameScene.loadAsset "target" "scene.gltf"
                   (mkVector3 4 1 0) (mkVector3 0 Math_PI 0) "Target" 3
                   (Resolved [4]) demo_world) in
  let target := scale_target demo_scene (rootMesh_of demo_scene [4]) in
  target = 4
  /\ (scaling (scene wt target) = Some (mkVector3 1.5 1.5 1.5)
      /\ position (scene wt target) <> Some (mkVector3 4 1 0)
      /\ position (scene wt target) = Some Zero
      /\ position (scene wt 5) = Some (mkVector3 4 1 0))
  /\ (scaling (scene wg target) = Some (mkVector3 1.5 1.5 1.5)
      /\ position (scene wg target) <> Some (mkVector3 4 1 0)
      /\ rotation (scene wg target) <> Some (mkVector3 0 Math_PI 0)
      /\ position (scene wg target) = Some Zero
      /\ position (scene wg 5) = Some (mkVector3 4 1 0)
      /\ rotation (scene wg 5) = Some (mkVector3 0 Math_PI 0)).
Proof.
  assert (D : forall (u v : Vector3) (ax : Vector3 -> number),
                (ax u =? ax v)%float = false -> is_nan (ax v) = false ->
                Some u <> Some v).
  { intros u v ax H N [= E]. rewrite E in H. unfold is_nan in N.
    rewrite H in N. discriminate N. }
  cbv zeta. repeat split; try reflexivity.
  - apply (D _ _ x); reflexivity.
  - apply (D _ _ x); reflexivity.
  - apply (D _ _ y); reflexivity.
Qed.

(** ** Loads without usable meshes, and rejected loads *)

Lemma usable_meshes_nil (sc : Scene) (rm : list ident) :
  usable_meshes sc rm = [] <->
  existsb (fun m => instanceof_Mesh (sc m)) rm = false.
Proof.
  unfold usable_meshes. induction rm as [|m rm IH]; simpl; [tauto|].
  destruct (instanceof_Mesh (sc m)); simpl; [|exact IH].
  split; discriminate.
Qed.

Lemma AssetTest_loadAsset_no_mesh (w : World) (rm : list ident)
    (fp fn : string) (pos : Vector3) (name : string) (ts : number) :
  usable_meshes (scene w) rm = [] ->
  AssetTestScene.loadAsset fp fn pos name ts (Resolved rm) w
  = (Normal undefined,
     mkWorld (scene w) (loadedAssets w) (loading w)
             (console w ++ [match rm with
                            | [] => warn_no_meshes name
                            | _ :: _ => warn_no_valid_meshes name
                            end])).
Proof.
  intros H. destruct rm as [|first rest]; [reflexivity|].
  unfold AssetTestScene.loadAsset, AssetTestScene.loadAsset_try, try_catch, bind.
  cbn [await ret get_scene scene fst snd].
  unfold usable_meshes in H. rewrite H. reflexivity.
Qed.

Lemma ArcheryGame_loadAsset_no_mesh (w : World) (first : ident)
    (rest : list ident) (fp fn : string) (pos rot : Vector3) (name : string)
    (ts : number) :
  usable_meshes (scene w) (first :: rest) = [] ->
  ArcheryGameScene.loadAsset fp fn pos rot name ts (Resolved (first :: rest)) w
  = (Normal null,
     mkWorld (scene w) (loadedAssets w) (loading w)
             (console w ++ [warn_no_valid_meshes name])).
Proof.
  intros H.
  unfold ArcheryGameScene.loadAsset, ArcheryGameScene.loadAsset_try,
    try_catch, bind.
  cbn [await ret get_scene scene fst snd].
  unfold usable_meshes in H. rewrite H. reflexivity.
Qed.

Lemma AssetTest_loadAsset_rejected (w : World) (fp fn : string)
    (pos : Vector3) (name : string) (ts : number) (e : JsError) :
  AssetTestScene.loadAsset fp fn pos name ts (Rejected e) w
  = (Normal undefined,
     mkWorld (scene w) (loadedAssets w) (loading w)
             (match e with
              | ErrorObject message =>
                (console w ++ [error_loading name e])
                ++ [error_details message]
              | OtherThrown _ => console w ++ [error_loading name e]
              end)).
Proof. destruct e; reflexivity. Qed.

Lemma ArcheryGame_loadAsset_rejected (w : World) (fp fn : string)
    (pos rot : Vector3) (name : string) (ts : number) (e : JsError) :
  ArcheryGameScene.loadAsset fp fn pos rot name ts (Rejected e) w
  = (Normal null,
     mkWorld (scene w) (loadedAssets w) (loading w)
             (console w ++ [error_loading name e])).
Proof. reflexivity. Qed.

(** A load without usable mesh is a no-op with a warning: in the test
    scene always, in the game scene when the loader returned a node. *)
Lemma no_usable_mesh_is_noop (w : World) (rm : list ident) (fp fn : string)
    (pos rot : Vector3) (name : string) (ts : number) :
  usable_meshes (scene w) rm = [] ->
  (exists entry,
     AssetTestScene.loadAsset fp fn pos name ts (Resolved rm) w
     = (Normal undefined,
        mkWorld (scene w) (loadedAssets w) (loading w) (console w ++ [entry])))
  /\ (rm <> [] ->
      ArcheryGameScene.loadAsset fp fn pos rot name ts (Resolved rm) w
      = (Normal null,
         mkWorld (scene w) (loadedAssets w) (loading w)
                 (console w ++ [warn_no_valid_meshes name]))).
Proof.
  intros H. split.
  - eexists. apply AssetTest_loadAsset_no_mesh, H.
  - intros Hrm. destruct rm as [|first rest]; [congruence|].
    apply ArcheryGame_loadAsset_no_mesh, H.
Qed.

(** C6, at the input where the game scene departs from it.  When the
    loader resolves with an empty [meshes] array,
    [ArcheryGameScene.loadAsset] returns [null] and leaves the world as it
    was, the console included: nothing is logged.
    [AssetTestScene.loadAsset] writes its warning on the same input. *)
Theorem empty_result_is_silent_in_game_scene (w : World) (fp fn : string)
    (pos rot : Vector3) (name : string) (ts : number) :
  ArcheryGameScene.loadAsset fp fn pos rot name ts (Resolved []) w
  = (Normal null, w)
  /\ AssetTestScene.loadAsset fp fn pos name ts (Resolved []) w
     = (Normal undefined,
        mkWorld (scene w) (loadedAssets w) (loading w)
                (console w ++ [warn_no_meshes name])).
Proof. split; reflexivity. Qed.

(** ** Every task ends normally *)

Lemma AssetTest_store_after_class (sc : Scene) (root : ident) (s : number)
    (pos : Vector3) (j : ident) :
  instanceof_Mesh (AssetTest_store_after sc root s pos j)
  = instanceof_Mesh (sc j).
Proof. store_after_cases; store_cases. Qed.

Lemma ArcheryGame_store_after_class (sc : Scene) (root : ident) (s : number)
    (pos rot : Vector3) (j : ident) :
  instanceof_Mesh (ArcheryGame_store_after sc root s pos rot j)
  = instanceof_Mesh (sc j).
Proof. store_after_cases; store_cases. Qed.

Lemma succeeds_usable (sc : Scene) (r : PlacementRequest) (rm : list ident) :
  succeeds sc (r, Resolved rm)
  = match usable_meshes sc rm with [] => false | _ :: _ => true end.
Proof.
  unfold succeeds. cbn [snd].
  destruct (usable_meshes sc rm) eqn:E.
  - apply usable_meshes_nil, E.
  - destruct (existsb _ rm) eqn:Ex; [reflexivity|].
    apply usable_meshes_nil in Ex. congruence.
Qed.

Lemma AssetTest_task_step : task_step AssetTest_task.
Proof.
  intros [r [e|rm]] w; unfold AssetTest_task, load_name; cbn [fst snd].
  - rewrite AssetTest_loadAsset_rejected. unfold succeeds. cbn [snd].
    rewrite app_nil_r.
    destruct e as [message|d].
    + exists undefined, (scene w),
        [error_loading (req_name r) (ErrorObject message);
         error_details message].
      split; [now rewrite <- app_assoc|]. split; [reflexivity|].
      intros e [= <-]. now left.
    + exists undefined, (scene w), [error_loading (req_name r) (OtherThrown d)].
      split; [reflexivity|]. split; [reflexivity|].
      intros e [= <-]. now left.
  - rewrite succeeds_usable.
    destruct (usable_meshes (scene w) rm) as [|m ms] eqn:E.
    + rewrite AssetTest_loadAsset_no_mesh by exact E. rewrite app_nil_r.
      eexists _, _, _. split; [reflexivity|]. split; [reflexivity|].
      discriminate.
    + destruct (getBoundingBox_cons (scene w m) (map (scene w) ms)) as [bb Hbb].
      rewrite (AssetTest_loadAsset_placed w rm _ _ _ _ _ bb)
        by (rewrite E; exact Hbb).
      rewrite <- app_assoc.
      eexists _, _, _. split; [reflexivity|].
      split; [apply AssetTest_store_after_class | discriminate].
Qed.

Lemma ArcheryGame_task_step : task_step ArcheryGame_task.
Proof.
  intros [r [e|rm]] w; unfold ArcheryGame_task, load_name; cbn [fst snd].
  - rewrite ArcheryGame_loadAsset_rejected. unfold succeeds. cbn [snd].
    rewrite app_nil_r.
    exists null, (scene w), [error_loading (req_name r) e].
    split; [reflexivity|]. split; [reflexivity|].
    intros e' [= <-]. now left.
  - rewrite succeeds_usable.
    destruct (usable_meshes (scene w) rm) as [|m ms] eqn:E.
    + rewrite app_nil_r. destruct rm as [|first rest].
      * exists null, (scene w), [].
        rewrite app_nil_r. split; [now destruct w|].
        split; [reflexivity | discriminate].
      * rewrite ArcheryGame_loadAsset_no_mesh by exact E.
        eexists _, _, _. split; [reflexivity|]. split; [reflexivity|].
        discriminate.
    + destruct (getBoundingBox_cons (scene w m) (map (scene w) ms)) as [bb Hbb].
      rewrite (ArcheryGame_loadAsset_placed w rm _ _ _ _ _ _ bb)
        by (rewrite getBoundingBox_same, E; exact Hbb).
      eexists _, _, _. split; [reflexivity|].
      split; [apply ArcheryGame_store_after_class | discriminate].
Qed.

(** ** The barrier *)

Lemma set_nth_length {A : Type} (a : A) (l : list A) : forall i,
  List.length (set_nth i a l) = List.length l.
Proof. induction l as [|h t IH]; intros [|i]; simpl; auto. Qed.

Lemma set_nth_same {A : Type} (a : A) (l : list A) : forall i,
  i < List.length l -> nth_error (set_nth i a l) i = Some a.
Proof.
  induction l as [|h t IH]; intros [|i] H; simpl in *; try lia; auto.
  apply IH. lia.
Qed.

Lemma set_nth_other {A : Type} (a : A) (l : list A) : forall i j,
  j <> i -> nth_error (set_nth i a l) j = nth_error l j.
Proof.
  induction l as [|h t IH]; intros [|i] [|j] H; simpl; auto; try congruence.
Qed.

Lemma succeeds_same_classes (sc sc' : Scene) (l : Load) :
  (forall j, instanceof_Mesh (sc' j) = instanceof_Mesh (sc j)) ->
  succeeds sc' l = succeeds sc l.
Proof.
  intros H. unfold succeeds. destruct (snd l) as [e|rm]; [reflexivity|].
  induction rm as [|m rm IH]; simpl; [reflexivity|]. now rewrite H, IH.
Qed.

Lemma fulfilled_values_all (rs : list (option (Completion Value))) :
  (forall i, i < List.length rs -> fulfilled (nth_error rs i)) ->
  exists vs, fulfilled_values rs = Some vs.
Proof.
  induction rs as [|r rs IH]; intros H; simpl; [eauto|].
  destruct (H 0) as [v Hv]; [simpl; lia|]. injection Hv as ->.
  destruct IH as [vs Hvs].
  - intros i Hi. apply (H (S i)). simpl. lia.
  - rewrite Hvs. eauto.
Qed.

Section Batch.

Variable task : Load -> M Value.
Hypothesis task_ok : task_step task.
Variable loads : list Load.

Lemma settle_all_spec (order : list nat) :
  forall (results : list (option (Completion Value))) (w : World),
    let r := settle_all (map task loads) order results w in
    loadedAssets (snd r)
    = loadedAssets w
      ++ map load_name
           (filter (succeeds (scene w)) (in_completion_order loads order))
    /\ loading (snd r) = loading w
    /\ (forall j, instanceof_Mesh (scene (snd r) j)
                  = instanceof_Mesh (scene w j))
    /\ (exists c, console (snd r) = console w ++ c
                  /\ forall i l e,
                       In i order -> nth_error loads i = Some l ->
                       snd l = Rejected e ->
                       In (error_loading (load_name l) e) c)
    /\ List.length (fst r) = List.length results
    /\ (forall i, fulfilled (nth_error results i) ->
                  fulfilled (nth_error (fst r) i))
    /\ (forall i, In i order -> i < List.length loads ->
                  i < List.length results ->
                  fulfilled (nth_error (fst r) i)).
Proof.
  induction order as [|i rest IH]; intros results w; cbn zeta.
  - simpl. rewrite app_nil_r. repeat split; auto.
    + exists []. rewrite app_nil_r. split; [reflexivity|]. intros ? ? ? [].
    + intros ? [].
  - simpl. rewrite nth_error_map.
    destruct (nth_error loads i) as [l|] eqn:El; simpl.
    + destruct (task_ok l w) as (v & sc' & c & Et & Hcl & Herr).
      rewrite Et.
      set (w1 := mkWorld sc' _ (loading w) (console w ++ c)).
      destruct (IH (set_nth i (Some (Normal v)) results) w1)
        as (Hla & Hlo & Hc & (c' & Hco & Hlog) & Hlen & Hkeep & Hnew).
      split; [|split; [|split; [|split; [|split; [|split]]]]].
      * rewrite Hla. subst w1. cbn [loadedAssets scene].
        rewrite <- app_assoc. f_equal.
        rewrite (filter_ext _ _ (fun l' => succeeds_same_classes _ _ l' Hcl)).
        destruct (succeeds (scene w) l); reflexivity.
      * rewrite Hlo. reflexivity.
      * intros j. rewrite Hc. apply Hcl.
      * exists (c ++ c'). split.
        -- rewrite Hco. subst w1. cbn [console]. now rewrite app_assoc.
        -- intros k l' e [<- | Hk] Hl' He; apply in_or_app.
           ++ left. rewrite El in Hl'. injection Hl' as <-. now apply Herr.
           ++ right. now apply (Hlog k l' e).
      * rewrite Hlen. apply set_nth_length.
      * intros k Hk. apply Hkeep.
        destruct (Nat.eq_dec k i) as [->|Hne].
        -- destruct Hk as [v' Hv'].
           rewrite set_nth_same; [now exists v|].
           apply nth_error_Some. congruence.
        -- now rewrite set_nth_other.
      * intros k [<- | Hk] Hkl Hkr.
        -- apply Hkeep. rewrite set_nth_same by exact Hkr. now exists v.
        -- apply Hnew; auto. now rewrite set_nth_length.
    + destruct (IH results w)
        as (Hla & Hlo & Hc & (c' & Hco & Hlog) & Hlen & Hkeep & Hnew).
      split; [|split; [|split; [|split; [|split; [|split]]]]]; auto.
      * exists c'. split; [exact Hco|].
        intros k l' e [<- | Hk] Hl' He; [congruence|].
        now apply (Hlog k l' e).
      * intros k [<- | Hk] Hkl Hkr; [|now apply Hnew].
        apply nth_error_None in El. lia.
Qed.

(** The loads named by a permutation of the indices are the loads. *)
Lemma in_completion_order_seq {A : Type} (l : list A) : forall pre : list A,
  in_completion_order (pre ++ l) (seq (List.length pre) (List.length l)) = l.
Proof.
  induction l as [|a l IH]; intros pre; [reflexivity|].
  simpl. unfold in_completion_order in *. simpl.
  rewrite nth_error_app2, Nat.sub_diag by lia. simpl. f_equal.
  specialize (IH (pre ++ [a])).
  rewrite <- app_assoc, length_app in IH. simpl in IH.
  rewrite Nat.add_1_r in IH. exact IH.
Qed.

Lemma in_completion_order_permutation (order : list nat) :
  Permutation order (seq 0 (List.length loads)) ->
  Permutation (in_completion_order loads order) loads.
Proof.
  intros H. rewrite <- (in_completion_order_seq loads []) at 2.
  unfold in_completion_order. simpl. apply Permutation_flat_map, H.
Qed.

(** What the barrier hands to its callback. *)
Lemma Promise_all_then_spec (callback : list Value -> M unit)
    (order : list nat) (w : World) :
  Permutation order (seq 0 (List.length loads)) ->
  exists (values : list Value) (w1 : World),
    Promise_all_then (map task loads) order callback w
    = snd (callback values w1)
    /\ loadedAssets w1
       = loadedAssets w
         ++ map load_name
              (filter (succeeds (scene w)) (in_completion_order loads order))
    /\ loading w1 = loading w
    /\ (forall j, instanceof_Mesh (scene w1 j) = instanceof_Mesh (scene w j))
    /\ (exists c, console w1 = console w ++ c
                  /\ forall l e, In l loads -> snd l = Rejected e ->
                                 In (error_loading (load_name l) e) c).
Proof.
  intros Hperm. unfold Promise_all_then.
  pose proof (settle_all_spec order
                (repeat None (List.length (map task loads))) w) as S.
  cbn zeta in S.
  destruct (settle_all (map task loads) order
              (repeat None (List.length (map task loads))) w)
    as [results w1].
  cbn [fst snd] in S.
  destruct S as (Hla & Hlo & Hc & (c & Hco & Hlog) & Hlen & _ & Hnew).
  rewrite repeat_length, length_map in Hlen.
  destruct (fulfilled_values_all results) as [values Hv].
  - intros i Hi. rewrite Hlen in Hi. apply Hnew.
    + apply (Permutation_in i (Permutation_sym Hperm)).
      apply in_seq. lia.
    + exact Hi.
    + now rewrite repeat_length, length_map.
  - rewrite Hv. exists values, w1. repeat split; auto.
    exists c. split; [exact Hco|].
    intros l e Hl He. destruct (In_nth_error _ _ Hl) as [i Hi].
    apply (Hlog i l e); auto.
    apply (Permutation_in i (Permutation_sym Hperm)).
    apply in_seq. split; [lia|]. simpl. apply nth_error_Some. congruence.
Qed.

End Batch.

(** ** The callbacks of the barrier *)

Lemma AssetTest_on_loaded_effect (values : list Value) (w : World) :
  snd (AssetTestScene.on_loaded values w)
  = mkWorld (scene w) (loadedAssets w) false
            (console w ++ [log_all_assets_loaded]).
Proof. reflexivity. Qed.

Ltac console_grows :=
  cbn [loading loadedAssets console snd];
  split; [reflexivity|]; split; [reflexivity|];
  rewrite <- ?app_assoc; eexists; reflexivity.

Lemma ArcheryGame_on_loaded_effect (camera : ident)
    (relative_transform : Scene -> ident -> ident
                          -> Vector3 * Vector3 * Vector3)
    (values : list Value) (w : World) :
  let w' := snd (ArcheryGameScene.on_loaded camera relative_transform
                   values w) in
  loading w' = false /\ loadedAssets w' = loadedAssets w
  /\ exists c, console w' = console w ++ c.
Proof.
  unfold ArcheryGameScene.on_loaded, ArcheryGameScene.hold_bow,
    ArcheryGameScene.report_target, ArcheryGameScene.setParent,
    ArcheryGameScene.toString_of, bind, setLoading, console_write,
    get_scene, assign, ret, throw.
  cbn [scene loadedAssets loading console fst snd].
  destruct (nth 0 values undefined) as [| |bow];
    destruct (nth 1 values undefined) as [| |target];
    cbn [scene loadedAssets loading console fst snd];
    repeat match goal with
           | |- context [if instanceof_Mesh ?n then _ else _] =>
             destruct (instanceof_Mesh n)
           | |- context [match position ?n with _ => _ end] =>
             destruct (position n)
           | |- context [match scaling ?n with _ => _ end] =>
             destruct (scaling n)
           | |- context [relative_transform ?a ?b ?c] =>
             destruct (relative_transform a b c) as [[? ?] ?]
           | _ => progress cbn [scene loadedAssets loading console fst snd]
           end;
    console_grows.
Qed.

(** Whatever throws inside the [try] block of [loadAsset], the [catch]
    block logs it and the function goes on to its normal end: no store,
    list or flag is touched by the handler. *)
Lemma catch_contains_every_error (body : M (option Value)) (name : string)
    (w w1 : World) (e : JsError) :
  body w = (Throw e, w1) ->
  (exists c,
     try_catch body (AssetTestScene.loadAsset_catch name) w
     = (Normal None,
        mkWorld (scene w1) (loadedAssets w1) (loading w1) (console w1 ++ c))
     /\ In (error_loading name e) c)
  /\ (exists c,
        try_catch body (ArcheryGameScene.loadAsset_catch name) w
        = (Normal None,
           mkWorld (scene w1) (loadedAssets w1) (loading w1) (console w1 ++ c))
        /\ In (error_loading name e) c).
Proof.
  intros H. unfold try_catch. rewrite H. split.
  - destruct e as [message|d].
    + exists [error_loading name (ErrorObject message); error_details message].
      split; [cbn; now rewrite <- app_assoc | now left].
    + exists [error_loading name (OtherThrown d)].
      split; [reflexivity | now left].
  - exists [error_loading name e]. split; [reflexivity | now left].
Qed.

(** C7.  For every batch of loads whose loader promises settle in the
    order [order], in either scene: every task ends normally whatever its
    loader did, so the barrier runs its callback and [loading] is [false]
    at the end; the list of loaded assets gained the names of the loads
    that succeeded, in the order of completion, and no other name; the
    error of every rejected load was written to the console; every load
    took its turn; and whatever is thrown inside the [try] block of
    [loadAsset] is logged by its [catch] block, after which the task goes
    on to its normal end. *)
Theorem partial_failure_is_contained (loads : list Load) (order : list nat)
    (w : World) (camera : ident)
    (relative_transform : Scene -> ident -> ident
                          -> Vector3 * Vector3 * Vector3) :
  Permutation order (seq 0 (List.length loads)) ->
  let names :=
    map load_name
        (filter (succeeds (scene w)) (in_completion_order loads order)) in
  let wt := Promise_all_then (map AssetTest_task loads) order
              AssetTestScene.on_loaded w in
  let wg := Promise_all_then (map ArcheryGame_task loads) order
              (ArcheryGameScene.on_loaded camera relative_transform) w in
  (loading wt = false
   /\ loadedAssets wt = loadedAssets w ++ names
   /\ forall l e, In l loads -> snd l = Rejected e ->
                  In (error_loading (load_name l) e) (console wt))
  /\ (loading wg = false
      /\ loadedAssets wg = loadedAssets w ++ names
      /\ forall l e, In l loads -> snd l = Rejected e ->
                     In (error_loading (load_name l) e) (console wg))
  /\ Permutation (in_completion_order loads order) loads
  /\ (forall (body : M (option Value)) (name : string) (w0 w1 : World)
             (e : JsError),
        body w0 = (Throw e, w1) ->
        (exists c,
           try_catch body (AssetTestScene.loadAsset_catch name) w0
           = (Normal None,
              mkWorld (scene w1) (loadedAssets w1) (loading w1)
                      (console w1 ++ c))
           /\ In (error_loading name e) c)
        /\ (exists c,
              try_catch body (ArcheryGameScene.loadAsset_catch name) w0
              = (Normal None,
                 mkWorld (scene w1) (loadedAssets w1) (loading w1)
                         (console w1 ++ c))
              /\ In (error_loading name e) c)).
Proof.
  intros Hperm names wt wg. split; [|split; [|split]].
  - destruct (Promise_all_then_spec AssetTest_task AssetTest_task_step loads
                AssetTestScene.on_loaded order w Hperm)
      as (values & w1 & E & Hla & _ & _ & c & Hco & Hlog).
    subst wt. rewrite E, AssetTest_on_loaded_effect.
    cbn [loading loadedAssets console]. repeat split; auto.
    intros l e Hl He. rewrite Hco. apply in_or_app. left.
    apply in_or_app. right. now apply (Hlog l e).
  - destruct (Promise_all_then_spec ArcheryGame_task ArcheryGame_task_step
                loads (ArcheryGameScene.on_loaded camera relative_transform)
                order w Hperm)
      as (values & w1 & E & Hla & _ & _ & c & Hco & Hlog).
    subst wg. rewrite E.
    destruct (ArcheryGame_on_loaded_effect camera relative_transform
                values w1) as (L & A & c' & C).
    repeat split; [exact L | now rewrite A |].
    intros l e Hl He. rewrite C, Hco. apply in_or_app. left.
    apply in_or_app. right. now apply (Hlog l e).
  - apply in_completion_order_permutation, Hperm.
  - intros body name w0 w1 e H. now apply catch_contains_every_error.
Qed.

Lemma partial_failure_is_contained_witness :
  let w' := AssetTestScene.load_all
              (Resolved [1])
              (Rejected (ErrorObject "Unable to load /assets/arrow/scene.gltf"))
              (Resolved [3]) [2; 0; 1] demo_world in
  loading w' = false /\ loadedAssets w' = ["Target"; "Recurve Bow"].
Proof.
  assert (P : Permutation [2; 0; 1] (seq 0 (List.length demo_loads))).
  { apply (Permutation_cons_app [0; 1] [] 2). apply Permutation_refl. }
  destruct (partial_failure_is_contained demo_loads [2; 0; 1] demo_world 5
              (fun _ _ _ => (Zero, Zero, Zero)) P) as ((L & A & _) & _).
  split; [exact L | exact A].
Defined.

(** ** What a successful load returns and appends *)

(** C5, as the code has it.  For every placement that succeeds,
    [ArcheryGameScene.loadAsset] returns the root node reference and
    [AssetTestScene.loadAsset], which has no return value, returns
    [undefined]; each appends exactly one entry, the asset's display name,
    to the list of loaded assets; and over a batch the list gains the
    names of the successful loads in the order in which the loads
    complete. *)
Theorem success_returns_and_appends (w : World) (rm : list ident)
    (fp fn : string) (pos rot : Vector3) (name : string) (ts : number)
    (bb : BoundingBox) (loads : list Load) (order : list nat) :
  AssetTestScene.getBoundingBox (map (scene w) (usable_meshes (scene w) rm))
  = Some bb ->
  let rt := AssetTestScene.loadAsset fp fn pos name ts (Resolved rm) w in
  let rg := ArcheryGameScene.loadAsset fp fn pos rot name ts (Resolved rm) w in
  let names :=
    map load_name
        (filter (succeeds (scene w)) (in_completion_order loads order)) in
  fst rt = Normal undefined
  /\ fst rg = Normal (NodeRef (rootMesh_of (scene w) rm))
  /\ loadedAssets (snd rt) = loadedAssets w ++ [name]
  /\ loadedAssets (snd rg) = loadedAssets w ++ [name]
  /\ loadedAssets (snd (settle_all (map AssetTest_task loads) order
                          (repeat None (List.length loads)) w))
     = loadedAssets w ++ names
  /\ loadedAssets (snd (settle_all (map ArcheryGame_task loads) order
                          (repeat None (List.length loads)) w))
     = loadedAssets w ++ names.
Proof.
  intros H rt rg names. subst rt rg.
  rewrite (AssetTest_loadAsset_placed w rm fp fn pos name ts bb H).
  rewrite (ArcheryGame_loadAsset_placed w rm fp fn pos rot name ts bb H).
  cbn [fst snd loadedAssets]. repeat split.
  - apply (settle_all_spec AssetTest_task AssetTest_task_step loads order).
  - apply (settle_all_spec ArcheryGame_task ArcheryGame_task_step loads order).
Qed.

Lemma success_returns_and_appends_witness :
  fst (ArcheryGameScene.loadAsset "target" "scene.gltf" (mkVector3 0 1.5 12)
         (mkVector3 0 (Math_PI / 2) 0) "Target" 4 (Resolved [1; 3])
         demo_world)
  = Normal (NodeRef 3)
  /\ loadedAssets
       (snd (ArcheryGameScene.loadAsset "target" "scene.gltf"
               (mkVector3 0 1.5 12) (mkVector3 0 (Math_PI / 2) 0) "Target" 4
               (Resolved [1; 3]) demo_world))
     = ["Target"]
  /\ loadedAssets (snd (settle_all (map AssetTest_task demo_loads) [2; 0; 1]
                          [None; None; None] demo_world))
     = ["Target"; "Recurve Bow"]
  /\ loadedAssets (snd (settle_all (map AssetTest_task demo_loads) [0; 1; 2]
                          [None; None; None] demo_world))
     = ["Recurve Bow"; "Target"].
Proof.
  pose (box := mkBoundingBox (mkVector3 (-1) 0 (-1)) (mkVector3 1 2 1)
                             (mkVector3 2 2 2)).
  destruct (success_returns_and_appends demo_world [1; 3] "target"
              "scene.gltf" (mkVector3 0 1.5 12) (mkVector3 0 (Math_PI / 2) 0)
              "Target" 4 box demo_loads [2; 0; 1] eq_refl)
    as (_ & R & _ & A & B & _).
  destruct (success_returns_and_appends demo_world [1; 3] "target"
              "scene.gltf" (mkVector3 0 1.5 12) (mkVector3 0 (Math_PI / 2) 0)
              "Target" 4 box demo_loads [0; 1; 2] eq_refl)
    as (_ & _ & _ & _ & C & _).
  split; [exact R|]. split; [exact A|]. split; [exact B | exact C].
Defined.

(** C5 as the specification words it fails in the test scene:
    [AssetTestScene.loadAsset] places the asset, appends its name and
    returns [undefined], not the root node. *)
Lemma test_scene_returns_no_root :
  let r := AssetTestScene.loadAsset "target" "scene.gltf" (mkVector3 4 1 0)
             "Target" 3 (Resolved [3]) demo_world in
  rootMesh_of demo_scene [3] = 3
  /\ loadedAssets (snd r) = ["Target"]
  /\ fst r = Normal undefined
  /\ fst r <> Normal (NodeRef 3).
Proof. cbv zeta. repeat split. discriminate. Qed.

(** ** The degenerate bounding box *)

Lemma eqb_zero_Prim2SF (c : number) :
  (c =? 0)%float = true -> exists s, Prim2SF c = S754_zero s.
Proof.
  rewrite eqb_spec. change (Prim2SF 0) with (S754_zero false).
  destruct (Prim2SF c) as [s|s| |s m e]; try destruct s; cbn;
    try discriminate; eauto.
Qed.

Lemma not_finite_Prim2SF (r : number) :
  Prim2SF r = S754_nan \/ (exists s, Prim2SF r = S754_infinity s) ->
  is_finite r = false.
Proof.
  unfold is_finite, is_nan, is_infinity. rewrite !eqb_spec, abs_spec.
  change (Prim2SF infinity) with (S754_infinity false).
  intros [E | [s E]]; rewrite E; [reflexivity|]. destruct s; reflexivity.
Qed.

(** Dividing by zero gives [Infinity], [-Infinity] or [NaN]. *)
Lemma div_by_zero_not_finite (t c : number) :
  (c =? 0)%float = true -> is_finite (t / c) = false.
Proof.
  intros H. destruct (eqb_zero_Prim2SF c H) as [s Hs].
  apply not_finite_Prim2SF. rewrite div_spec, Hs.
  unfold SF64div, SFdiv.
  destruct (Prim2SF t) as [s'|s'| |s' m e]; eauto.
Qed.

Lemma abs_of_zero (c : number) :
  (c =? 0)%float = true -> Math_abs c = 0%float.
Proof.
  intros H. destruct (eqb_zero_Prim2SF c H) as [s Hs].
  rewrite <- (SF2Prim_Prim2SF c), Hs. destruct s; reflexivity.
Qed.

(** A box of size [(0, 0, 0)] has [currentSize] zero. *)
Lemma degenerate_size_currentSize (bb : BoundingBox) :
  (x (size bb) =? 0)%float = true -> (y (size bb) =? 0)%float = true ->
  (z (size bb) =? 0)%float = true ->
  AssetTestScene.currentSize bb = 0%float.
Proof.
  intros Hx Hy Hz. unfold AssetTestScene.currentSize.
  rewrite (abs_of_zero _ Hx), (abs_of_zero _ Hy), (abs_of_zero _ Hz).
  reflexivity.
Qed.

(** C8.  When the combined bounding box has [currentSize] zero, the
    division is carried out all the same and the scale factor is
    [Infinity], [-Infinity] or [NaN]; [loadAsset] of either scene file
    still ends normally, having assigned that factor as the scale and the
    requested position, and having appended the name to the list of
    loaded assets. *)
Theorem degenerate_box_is_not_guarded (w : World) (rm : list ident)
    (fp fn : string) (pos rot : Vector3) (name : string) (ts : number)
    (bb : BoundingBox) :
  AssetTestScene.getBoundingBox (map (scene w) (usable_meshes (scene w) rm))
  = Some bb ->
  (AssetTestScene.currentSize bb =? 0)%float = true ->
  parent (scene w (rootMesh_of (scene w) rm))
  <> Some (rootMesh_of (scene w) rm) ->
  let root := rootMesh_of (scene w) rm in
  let s := (ts / AssetTestScene.currentSize bb)%float in
  is_finite s = false
  /\ (exists wt,
        AssetTestScene.loadAsset fp fn pos name ts (Resolved rm) w
        = (Normal undefined, wt)
        /\ placement (scene w) (scene wt) root (mkVector3 s s s) pos None
        /\ loadedAssets wt = loadedAssets w ++ [name])
  /\ (exists wg,
        ArcheryGameScene.loadAsset fp fn pos rot name ts (Resolved rm) w
        = (Normal (NodeRef root), wg)
        /\ placement (scene w) (scene wg) root (mkVector3 s s s) pos
                     (Some rot)
        /\ loadedAssets wg = loadedAssets w ++ [name]).
Proof.
  intros H Hz Hself root s. split; [|split].
  - apply div_by_zero_not_finite, Hz.
  - rewrite (AssetTest_loadAsset_placed w rm fp fn pos name ts bb H).
    eexists. split; [reflexivity|]. cbn [scene loadedAssets].
    split; [|reflexivity].
    apply AssetTest_store_after_placement, Hself.
  - rewrite (ArcheryGame_loadAsset_placed w rm fp fn pos rot name ts bb H).
    eexists. split; [reflexivity|]. cbn [scene loadedAssets].
    split; [|reflexivity].
    apply ArcheryGame_store_after_placement, Hself.
Qed.

Lemma degenerate_box_is_not_guarded_witness :
  is_finite (3 / 0)%float = false
  /\ (exists wt,
        AssetTestScene.loadAsset "target" "scene.gltf" (mkVector3 4 1 0)
          "Target" 3 (Resolved [8]) demo_world
        = (Normal undefined, wt)
        /\ scaling (scene wt 8) = Some (mkVector3 infinity infinity infinity)
        /\ position (scene wt 8) = Some (mkVector3 4 1 0)
        /\ loadedAssets wt = ["Target"]).
Proof.
  destruct (degenerate_box_is_not_guarded demo_world [8] "target"
              "scene.gltf" (mkVector3 4 1 0) Zero "Target" 3
              (mkBoundingBox (mkVector3 1 1 1) (mkVector3 1 1 1) Zero)
              eq_refl eq_refl) as (F & (wt & E & P & L) & _).
  - discriminate.
  - split; [exact F|]. exists wt. split; [exact E|].
    split; [exact (placed_scale _ _ _ _ _ _ P)|].
    split; [exact (placed_position _ _ _ _ _ _ P) | exact L].
Defined.

(** ** The bow after the barrier *)

Lemma report_target_keeps_scene (targetRef : Value) (w : World) :
  scene (snd (ArcheryGameScene.report_target targetRef w)) = scene w
  /\ loading (snd (ArcheryGameScene.report_target targetRef w)) = loading w.
Proof.
  unfold ArcheryGameScene.report_target, ArcheryGameScene.toString_of, bind,
    console_write, get_scene, ret, throw.
  destruct targetRef as [| |target]; cbn; auto.
  destruct (instanceof_Mesh (scene w target)); cbn; auto.
  destruct (position (scene w target)); cbn; auto.
  destruct (scaling (scene w target)); cbn; auto.
Qed.

(** The callback on a bow that is a [Mesh] with its position and scaling
    properties. *)
Lemma on_loaded_holds_bow (camera : ident)
    (relative_transform : Scene -> ident -> ident
                          -> Vector3 * Vector3 * Vector3)
    (w : World) (bow : ident) (targetRef : Value) (p s : Vector3) :
  instanceof_Mesh (scene w bow) = true ->
  position (scene w bow) = Some p ->
  scaling (scene w bow) = Some s ->
  let w' := snd (ArcheryGameScene.on_loaded camera relative_transform
                   [NodeRef bow; targetRef] w) in
  parent (scene w' bow) = Some camera
  /\ position (scene w' bow) = Some (mkVector3 0 (-0.2) 1.2)
  /\ rotation (scene w' bow)
     = Some (mkVector3 0 (Math_PI / 12) (Math_PI / 2))
  /\ loading w' = false.
Proof.
  intros Hm Hp Hs w'.
  destruct (relative_transform (scene w) bow camera) as [[s' r'] p'] eqn:Ert.
  set (held :=
    mkWorld
      (upd (upd (upd (upd (upd (upd (scene w) bow (set_scaling s'))
                               bow (set_rotation r'))
                          bow (set_position p'))
                     bow (set_parent (Some camera)))
                bow (set_position (mkVector3 0 (-0.2) 1.2)))
           bow (set_rotation (mkVector3 0 (Math_PI / 12) (Math_PI / 2))))
      (loadedAssets w) false
      (((console w ++ [log_game_scene_loaded]) ++ [log_bow_positioned p])
       ++ [log_bow_scale s])).
  assert (E : w' = snd (ArcheryGameScene.report_target targetRef held)).
  { subst w'.
    unfold ArcheryGameScene.on_loaded, ArcheryGameScene.hold_bow,
      ArcheryGameScene.setParent, ArcheryGameScene.toString_of, bind,
      setLoading, console_write, get_scene, assign, ret.
    cbn [nth scene loadedAssets loading console fst snd].
    rewrite Hm, Hp. cbn [scene loadedAssets loading console fst snd].
    rewrite Hs. cbn [scene loadedAssets loading console fst snd].
    rewrite Ert. reflexivity. }
  destruct (report_target_keeps_scene targetRef held) as [Esc Elo].
  rewrite E, Esc, Elo. subst held. cbn [scene loading].
  repeat split; store_cases.
Qed.

Lemma keeps_refl (sc : Scene) : keeps sc sc.
Proof. intros j. auto. Qed.

Lemma keeps_trans (sc1 sc2 sc3 : Scene) :
  keeps sc1 sc2 -> keeps sc2 sc3 -> keeps sc1 sc3.
Proof.
  intros H12 H23 j. destruct (H12 j) as (A & B & C & D).
  destruct (H23 j) as (A' & B' & C' & D').
  repeat split; try congruence; auto.
Qed.

Lemma ArcheryGame_store_after_keeps (sc : Scene) (root : ident) (s : number)
    (pos rot : Vector3) :
  keeps sc (ArcheryGame_store_after sc root s pos rot).
Proof. intros j. store_after_cases; repeat split; store_cases. Qed.

Lemma ArcheryGame_store_after_root_position (sc : Scene) (root : ident)
    (s : number) (pos rot : Vector3) :
  isSome (position (ArcheryGame_store_after sc root s pos rot root)) = true.
Proof. store_after_cases; store_cases. Qed.

Lemma rootMesh_of_keeps (sc sc' : Scene) (rm : list ident) :
  keeps sc sc' -> rootMesh_of sc' rm = rootMesh_of sc rm.
Proof.
  intros H. unfold rootMesh_of, find_rootMesh.
  assert (E : forall l,
             find (fun mesh => negb (isSome (parent (sc' mesh)))) l
             = find (fun mesh => negb (isSome (parent (sc mesh)))) l).
  { induction l as [|m l IH]; [reflexivity|]. simpl.
    destruct (H m) as (_ & -> & _). now rewrite IH. }
  now rewrite E.
Qed.

Lemma usable_meshes_keeps (sc sc' : Scene) (rm : list ident) :
  keeps sc sc' -> usable_meshes sc' rm = usable_meshes sc rm.
Proof.
  intros H. unfold usable_meshes. apply filter_ext.
  intros m. now destruct (H m) as (-> & _).
Qed.

(** Every run of the game scene's [loadAsset] ends normally and keeps
    classes, parents and properties. *)
Lemma ArcheryGame_loadAsset_keeps (fp fn : string) (pos rot : Vector3)
    (name : string) (ts : number) (o : LoaderOutcome) (w : World) :
  exists v w1,
    ArcheryGameScene.loadAsset fp fn pos rot name ts o w = (Normal v, w1)
    /\ keeps (scene w) (scene w1) /\ loading w1 = loading w.
Proof.
  destruct o as [e|rm].
  - rewrite ArcheryGame_loadAsset_rejected. eexists _, _.
    split; [reflexivity|]. split; [apply keeps_refl | reflexivity].
  - destruct (usable_meshes (scene w) rm) as [|m ms] eqn:E.
    + destruct rm as [|first rest].
      * exists null, w. split; [reflexivity|].
        split; [apply keeps_refl | reflexivity].
      * rewrite ArcheryGame_loadAsset_no_mesh by exact E. eexists _, _.
        split; [reflexivity|]. split; [apply keeps_refl | reflexivity].
    + destruct (getBoundingBox_cons (scene w m) (map (scene w) ms)) as [bb Hbb].
      rewrite (ArcheryGame_loadAsset_placed w rm _ _ _ _ _ _ bb)
        by (rewrite getBoundingBox_same, E; exact Hbb).
      eexists _, _. split; [reflexivity|].
      split; [apply ArcheryGame_store_after_keeps | reflexivity].
Qed.

(** A successful run returns the root and leaves it with a position. *)
Lemma ArcheryGame_loadAsset_root (fp fn : string) (pos rot : Vector3)
    (name : string) (ts : number) (rm : list ident) (w : World) :
  usable_meshes (scene w) rm <> [] ->
  exists w1,
    ArcheryGameScene.loadAsset fp fn pos rot name ts (Resolved rm) w
    = (Normal (NodeRef (rootMesh_of (scene w) rm)), w1)
    /\ keeps (scene w) (scene w1) /\ loading w1 = loading w
    /\ isSome (position (scene w1 (rootMesh_of (scene w) rm))) = true.
Proof.
  intros H. destruct (usable_meshes (scene w) rm) as [|m ms] eqn:E;
    [congruence|].
  destruct (getBoundingBox_cons (scene w m) (map (scene w) ms)) as [bb Hbb].
  rewrite (ArcheryGame_loadAsset_placed w rm _ _ _ _ _ _ bb)
    by (rewrite getBoundingBox_same, E; exact Hbb).
  eexists. split; [reflexivity|]. cbn [scene loading].
  split; [apply ArcheryGame_store_after_keeps|]. split; [reflexivity|].
  apply ArcheryGame_store_after_root_position.
Qed.

(** C10.  In the game scene, whatever the order in which the two loads
    complete and whatever the target load does: when the bow load
    succeeds and its root is a [Mesh] (which carries a scaling), then
    after the barrier the bow has the camera as parent, the position
    [(0, -0.2, 1.2)] and the rotation [(0, pi/12, pi/2)], and [loading] is
    [false].  These are not the position [(0, 0, 0)] and the rotation
    [(0, 0, 0)] of the bow's placement request. *)
Theorem bow_ends_on_the_camera (camera : ident)
    (relative_transform : Scene -> ident -> ident
                          -> Vector3 * Vector3 * Vector3)
    (bow_meshes : list ident) (target : LoaderOutcome) (order : list nat)
    (w : World) :
  Permutation order [0; 1] ->
  usable_meshes (scene w) bow_meshes <> [] ->
  instanceof_Mesh (scene w (rootMesh_of (scene w) bow_meshes)) = true ->
  isSome (scaling (scene w (rootMesh_of (scene w) bow_meshes))) = true ->
  let bow := rootMesh_of (scene w) bow_meshes in
  let w' := ArcheryGameScene.load_all camera relative_transform
              (Resolved bow_meshes) target order w in
  parent (scene w' bow) = Some camera
  /\ position (scene w' bow) = Some (mkVector3 0 (-0.2) 1.2)
  /\ rotation (scene w' bow)
     = Some (mkVector3 0 (Math_PI / 12) (Math_PI / 2))
  /\ loading w' = false
  /\ mkVector3 0 (-0.2) 1.2 <> mkVector3 0 0 0
  /\ mkVector3 0 (Math_PI / 12) (Math_PI / 2) <> mkVector3 0 0 0.
Proof.
  intros Hperm Hus Hm Hs bow w'.
  assert (D : forall a b c : number,
                (c =? 0)%float = false -> mkVector3 a b c <> mkVector3 0 0 0).
  { intros a b c Hc F. apply (f_equal z) in F. cbn in F.
    rewrite F in Hc. discriminate Hc. }
  assert (Run : exists (w2 : World) (v : Value),
            w' = snd (ArcheryGameScene.on_loaded camera relative_transform
                        [NodeRef bow; v] w2)
            /\ keeps (scene w) (scene w2)
            /\ isSome (position (scene w2 bow)) = true).
  { subst w'. unfold ArcheryGameScene.load_all, Promise_all_then.
    apply Permutation_sym, Permutation_length_2_inv in Hperm.
    destruct Hperm as [-> | ->]; cbn [settle_all nth_error List.length repeat].
    - destruct (ArcheryGame_loadAsset_root "recurve_bow" "scene.gltf"
                  (mkVector3 0 0 0) (mkVector3 0 0 0) "Recurve Bow" 0.8
                  bow_meshes w Hus) as (w1 & E1 & K1 & _ & P1).
      rewrite E1. cbn [set_nth].
      destruct (ArcheryGame_loadAsset_keeps "target" "scene.gltf"
                  (mkVector3 0 1.5 12) (mkVector3 0 (Math_PI / 2) 0)
                  "Target" 4 target w1) as (v & w2 & E2 & K2 & _).
      rewrite E2. cbn [set_nth fulfilled_values].
      exists w2, v. split; [reflexivity|].
      split; [eapply keeps_trans; eassumption|].
      now apply (K2 bow).
    - destruct (ArcheryGame_loadAsset_keeps "target" "scene.gltf"
                  (mkVector3 0 1.5 12) (mkVector3 0 (Math_PI / 2) 0)
                  "Target" 4 target w) as (v & w1 & E1 & K1 & _).
      rewrite E1. cbn [set_nth].
      assert (Hus1 : usable_meshes (scene w1) bow_meshes <> [])
        by now rewrite (usable_meshes_keeps _ _ _ K1).
      destruct (ArcheryGame_loadAsset_root "recurve_bow" "scene.gltf"
                  (mkVector3 0 0 0) (mkVector3 0 0 0) "Recurve Bow" 0.8
                  bow_meshes w1 Hus1) as (w2 & E2 & K2 & _ & P2).
      rewrite (rootMesh_of_keeps _ _ _ K1) in E2, P2. fold bow in E2, P2.
      rewrite E2. cbn [set_nth fulfilled_values].
      exists w2, v. split; [reflexivity|].
      split; [eapply keeps_trans; eassumption | exact P2]. }
  destruct Run as (w2 & v & E & K & P).
  destruct (K bow) as (Kc & _ & Ks & _).
  destruct (position (scene w2 bow)) as [p|] eqn:Ep; [|discriminate P].
  destruct (scaling (scene w2 bow)) as [s|] eqn:Es;
    [|specialize (Ks Hs); discriminate Ks].
  destruct (on_loaded_holds_bow camera relative_transform w2 bow v p s)
    as (A & B & C & L); [rewrite Kc; exact Hm | exact Ep | exact Es |].
  rewrite E. repeat split; try assumption; apply D; reflexivity.
Qed.

Lemma bow_ends_on_the_camera_witness :
  let bow := rootMesh_of (scene demo_world) [3] in
  let w' := ArcheryGameScene.load_all 5 (fun _ _ _ => (Zero, Zero, Zero))
              (Resolved [3]) (Resolved [1]) [1; 0] demo_world in
  bow = 3
  /\ parent (scene w' bow) = Some 5
  /\ position (scene w' bow) = Some (mkVector3 0 (-0.2) 1.2)
  /\ rotation (scene w' bow)
     = Some (mkVector3 0 (Math_PI / 12) (Math_PI / 2))
  /\ loading w' = false.
Proof.
  assert (P : Permutation [1; 0] [0; 1]) by apply perm_swap.
  assert (U : usable_meshes (scene demo_world) [3] <> []) by discriminate.
  destruct (bow_ends_on_the_camera 5 (fun _ _ _ => (Zero, Zero, Zero)) [3]
              (Resolved [1]) [1; 0] demo_world P U eq_refl eq_refl)
    as (A & B & C & D & _).
  split; [reflexivity|].
  split; [exact A|]. split; [exact B|]. split; [exact C | exact D].
Defined.

(** The whole effect of the game scene on the small scene, the target
    load completing first: the bow 3 ends on the camera 5 with the
    callback's position and rotation, not with those of its request. *)
Example game_scene_run :
  let w' := ArcheryGameScene.load_all 5 (fun _ _ _ => (Zero, Zero, Zero))
              (Resolved [3]) (Resolved [1]) [1; 0] demo_world in
  parent (scene w' 3) = Some 5
  /\ position (scene w' 3) = Some (mkVector3 0 (-0.2) 1.2)
  /\ rotation (scene w' 3) = Some (mkVector3 0 (Math_PI / 12) (Math_PI / 2))
  /\ position (scene w' 2) = Some (mkVector3 0 1.5 12)
  /\ rotation (scene w' 2) = Some (mkVector3 0 (Math_PI / 2) 0)
  /\ scaling (scene w' 2) = Some (mkVector3 2 2 2)
  /\ loadedAssets w' = ["Target"; "Recurve Bow"]
  /\ loading w' = false.
Proof. vm_compute. repeat split. Qed.

(** A parent with a position and no rotation: the game scene moves the
    light 7, resets the mesh 6 to the origin, and assigns the rotation to
    neither. *)
Example rotation_is_dropped_under_a_light :
  let w' := snd (ArcheryGameScene.loadAsset "target" "scene.gltf"
                   (mkVector3 0 1.5 12) (mkVector3 0 (Math_PI / 2) 0)
                   "Target" 4 (Resolved [6]) demo_world) in
  position (scene w' 7) = Some (mkVector3 0 1.5 12)
  /\ position (scene w' 6) = Some Zero
  /\ scaling (scene w' 6) = Some (mkVector3 2 2 2)
  /\ rotation (scene w' 7) = None
  /\ rotation (scene w' 6) = rotation (demo_scene 6).
Proof. vm_compute. repeat split. Qed.

(** The two scenarios of the specification. *)
Example scenario_unit_factor :
  AssetTestScene.getBoundingBox [unit_cube]
  = Some (mkBoundingBox (mkVector3 (-1) 0 (-1)) (mkVector3 1 2 1)
                        (mkVector3 2 2 2))
  /\ AssetTestScene.currentSize
       (mkBoundingBox (mkVector3 (-1) 0 (-1)) (mkVector3 1 2 1)
                      (mkVector3 2 2 2)) = 2%float
  /\ AssetTestScene.scaleFactor 2
       (mkBoundingBox (mkVector3 (-1) 0 (-1)) (mkVector3 1 2 1)
                      (mkVector3 2 2 2)) = 1%float.
Proof. repeat split. Qed.

Example scenario_factor_ten :
  AssetTestScene.currentSize
    (mkBoundingBox (mkVector3 0 0 0) (mkVector3 0.5 0.1 0.5)
                   (mkVector3 0.5 0.1 0.5)) = 0.5%float
  /\ AssetTestScene.scaleFactor 5
       (mkBoundingBox (mkVector3 0 0 0) (mkVector3 0.5 0.1 0.5)
                      (mkVector3 0.5 0.1 0.5)) = 10%float.
Proof. repeat split. Qed.

(** * Further properties *)

(** ** getBoundingBox on lists with entries that are not meshes *)

Lemma forEach_skips_non_Mesh (ms : list Node) : forall acc,
  fold_left AssetTestScene.forEach_step ms acc
  = fold_left AssetTestScene.forEach_step (filter instanceof_Mesh ms) acc.
Proof.
  induction ms as [|m ms IH]; intros [lo hi]; [reflexivity|].
  simpl. destruct (instanceof_Mesh m) eqn:E; simpl; rewrite ?E; apply IH.
Qed.

Lemma ltb_irrefl (a : number) : (a <? a)%float = false.
Proof.
  rewrite ltb_spec. unfold SFltb, SFcompare.
  destruct (Prim2SF a) as [[]|[]| |[] m e]; try reflexivity; cmp_cases.
Qed.

Lemma Minimize_same (v : Vector3) : Minimize v v = v.
Proof.
  destruct v as [a b c]. unfold Minimize, minimize_axis. cbn.
  now rewrite !ltb_irrefl.
Qed.

Lemma Maximize_same (v : Vector3) : Maximize v v = v.
Proof.
  destruct v as [a b c]. unfold Maximize, maximize_axis. cbn.
  now rewrite !ltb_irrefl.
Qed.

(** X1.  In [getBoundingBox] of either file the entries after the first
    that are not [Mesh] instances do not count, while the first entry
    always counts: it seeds the box before the [instanceof] test.  So a
    list whose later entries hold no [Mesh] gives the first entry's own
    box, whether or not the first entry is a [Mesh]. *)
Theorem getBoundingBox_counts_first_and_meshes (first : Node)
    (rest : list Node) :
  AssetTestScene.getBoundingBox (first :: rest)
  = AssetTestScene.getBoundingBox (first :: filter instanceof_Mesh rest)
  /\ ArcheryGameScene.getBoundingBox (first :: rest)
     = ArcheryGameScene.getBoundingBox (first :: filter instanceof_Mesh rest)
  /\ (Forall (fun m => instanceof_Mesh m = false) rest ->
      AssetTestScene.getBoundingBox (first :: rest) = Some (own_box first)
      /\ ArcheryGameScene.getBoundingBox (first :: rest)
         = Some (own_box first)).
Proof.
  rewrite getBoundingBox_same.
  assert (E : AssetTestScene.getBoundingBox (first :: rest)
              = AssetTestScene.getBoundingBox
                  (first :: filter instanceof_Mesh rest)).
  { unfold AssetTestScene.getBoundingBox. cbn [fold_left].
    now rewrite (forEach_skips_non_Mesh rest). }
  split; [exact E|]. split; [exact E|].
  intros H. rewrite E. clear E.
  assert (F : filter instanceof_Mesh rest = []).
  { induction H as [|m ms Hm _ IH]; [reflexivity|].
    simpl. now rewrite Hm. }
  rewrite F. unfold AssetTestScene.getBoundingBox, own_box.
  cbn [fold_left AssetTestScene.forEach_step].
  destruct (instanceof_Mesh first);
    rewrite ?Minimize_same, ?Maximize_same; auto.
Qed.

Lemma getBoundingBox_counts_first_and_meshes_witness :
  AssetTestScene.getBoundingBox [instanced_cube; instanced_cube]
  = Some (own_box instanced_cube)
  /\ ArcheryGameScene.getBoundingBox [instanced_cube; instanced_cube]
     = Some (own_box instanced_cube).
Proof.
  apply (getBoundingBox_counts_first_and_meshes instanced_cube
           [instanced_cube]).
  repeat constructor.
Defined.

(** ** getBoundingBox and the order of the meshes *)

Lemma SFleb_antisym (a b : spec_float) :
  SFleb a b = true -> SFleb b a = true -> SFeqb a b = true.
Proof.
  unfold SFleb, SFeqb, SFcompare.
  destruct a as [[]|[]| |[] ma ea], b as [[]|[]| |[] mb eb];
    simpl; intros H1 H2; try discriminate; try reflexivity; cmp_cases.
Qed.

Lemma leb_antisym (a b : number) :
  (a <=? b)%float = true -> (b <=? a)%float = true -> same_number a b.
Proof. unfold same_number. rewrite !leb_spec, eqb_spec. apply SFleb_antisym. Qed.

Lemma minimum_unique (r r' : number) (l l' : list number) :
  Permutation l l' -> is_minimum_of r l -> is_minimum_of r' l' ->
  same_number r r'.
Proof.
  intros P [Hin Hlow] [Hin' Hlow']. apply leb_antisym.
  - apply Hlow. apply (Permutation_in _ (Permutation_sym P)), Hin'.
  - apply Hlow'. apply (Permutation_in _ P), Hin.
Qed.

Lemma maximum_unique (r r' : number) (l l' : list number) :
  Permutation l l' -> is_maximum_of r l -> is_maximum_of r' l' ->
  same_number r r'.
Proof.
  intros P [Hin Hup] [Hin' Hup']. apply leb_antisym.
  - apply Hup'. apply (Permutation_in _ P), Hin.
  - apply Hup. apply (Permutation_in _ (Permutation_sym P)), Hin'.
Qed.

(** X2.  The corners of the box [getBoundingBox] returns do not depend on
    the order in which the meshes are listed: two lists of [Mesh] nodes
    with numeric boxes that are permutations of each other give [min] and
    [max] corners that are equal as numbers ([0] and [-0] are not told
    apart), in either file. *)
Theorem getBoundingBox_order_independent (meshes meshes' : list Node) :
  Permutation meshes meshes' ->
  Forall Mesh_with_box meshes ->
  same_corners (AssetTestScene.getBoundingBox meshes)
               (AssetTestScene.getBoundingBox meshes')
  /\ same_corners (ArcheryGameScene.getBoundingBox meshes)
                  (ArcheryGameScene.getBoundingBox meshes').
Proof.
  intros P H. rewrite getBoundingBox_same.
  assert (H' : Forall Mesh_with_box meshes')
    by (eapply Permutation_Forall; eassumption).
  pose proof (getBoundingBox_union_box meshes H) as U.
  pose proof (getBoundingBox_union_box meshes' H') as U'.
  assert (S : same_corners (AssetTestScene.getBoundingBox meshes)
                           (AssetTestScene.getBoundingBox meshes')).
  { destruct meshes as [|m ms].
    - apply Permutation_nil in P. subst meshes'. exact I.
    - destruct meshes' as [|m' ms'];
        [apply Permutation_sym, Permutation_nil in P; discriminate P|].
      destruct U as (bb & -> & Xl & Yl & Zl & Xh & Yh & Zh & _).
      destruct U' as (bb' & -> & Xl' & Yl' & Zl' & Xh' & Yh' & Zh' & _).
      pose proof (fun f : Node -> number => Permutation_map f P) as PM.
      split; (split; [|split]).
      * exact (minimum_unique _ _ _ _ (PM _) Xl Xl').
      * exact (minimum_unique _ _ _ _ (PM _) Yl Yl').
      * exact (minimum_unique _ _ _ _ (PM _) Zl Zl').
      * exact (maximum_unique _ _ _ _ (PM _) Xh Xh').
      * exact (maximum_unique _ _ _ _ (PM _) Yh Yh').
      * exact (maximum_unique _ _ _ _ (PM _) Zh Zh'). }
  split; exact S.
Qed.

Lemma getBoundingBox_order_independent_witness :
  same_corners (AssetTestScene.getBoundingBox [unit_cube; small_slab])
               (AssetTestScene.getBoundingBox [small_slab; unit_cube])
  /\ same_corners (ArcheryGameScene.getBoundingBox [unit_cube; small_slab])
                  (ArcheryGameScene.getBoundingBox [small_slab; unit_cube]).
Proof.
  apply (getBoundingBox_order_independent [unit_cube; small_slab]
           [small_slab; unit_cube]).
  - apply perm_swap.
  - repeat constructor.
Defined.

(** ** currentSize *)

Lemma is_nan_Prim2SF (a : number) :
  is_nan a = true -> Prim2SF a = S754_nan.
Proof.
  unfold is_nan. rewrite eqb_spec. intros H.
  destruct (Prim2SF a) as [s|s| |s m e] eqn:E; try reflexivity;
    rewrite SFeqb_refl in H by discriminate; discriminate H.
Qed.

Lemma is_nan_abs (a : number) : is_nan (Math_abs a) = is_nan a.
Proof.
  unfold Math_abs, is_nan. rewrite !eqb_spec, abs_spec.
  destruct (Prim2SF a) as [s|s| |s m e]; try reflexivity;
    cbn [SFabs]; rewrite !SFeqb_refl by discriminate; reflexivity.
Qed.

Lemma abs_nonneg (a : number) :
  is_nan a = false -> (0 <=? Math_abs a)%float = true.
Proof.
  intros H. apply not_nan_Prim2SF in H.
  unfold Math_abs. rewrite leb_spec, abs_spec.
  change (Prim2SF 0) with (S754_zero false).
  destruct (Prim2SF a) as [s|s| |s m e]; try reflexivity; congruence.
Qed.

Lemma pos_zero_Prim2SF (n : number) :
  is_pos_zero n = true -> Prim2SF n = S754_zero false.
Proof.
  unfold is_pos_zero. rewrite classify_spec.
  unfold SF64classify, SFclassify.
  destruct (Prim2SF n) as [[]|[]| |[] m e]; try discriminate; try reflexivity;
    destruct (Z.eqb _ _); discriminate.
Qed.

Lemma neg_zero_Prim2SF (n : number) :
  is_neg_zero n = true -> Prim2SF n = S754_zero true.
Proof.
  unfold is_neg_zero. rewrite classify_spec.
  unfold SF64classify, SFclassify.
  destruct (Prim2SF n) as [[]|[]| |[] m e]; try discriminate; try reflexivity;
    destruct (Z.eqb _ _); discriminate.
Qed.

(** One step of [Math.max] on numbers keeps the larger of the two. *)
Lemma Math_max_step_spec (highest n : number) :
  is_nan highest = false -> is_nan n = false ->
  let r := Math_max_step highest n in
  (r = highest \/ r = n)
  /\ (highest <=? r)%float = true /\ (n <=? r)%float = true.
Proof.
  intros Hh Hn. unfold Math_max_step.
  destruct (is_pos_zero n && is_neg_zero highest) eqn:Z.
  - apply andb_true_iff in Z as [Zn Zh].
    apply pos_zero_Prim2SF in Zn. apply neg_zero_Prim2SF in Zh.
    cbn zeta. split; [now right|]. split; [|now apply leb_refl].
    rewrite leb_spec, Zn, Zh. reflexivity.
  - destruct (highest <? n)%float eqn:L; cbn zeta.
    + split; [now right|]. split; [now apply ltb_leb | now apply leb_refl].
    + split; [now left|]. split; [now apply leb_refl|].
      now apply ltb_false_leb.
Qed.

Lemma fold_Math_max_step (l : list number) : forall a : number,
  is_nan a = false -> Forall (fun b => is_nan b = false) l ->
  let r := fold_left Math_max_step l a in
  is_nan r = false /\ (a <=? r)%float = true
  /\ (forall b, In b l -> (b <=? r)%float = true) /\ (r = a \/ In r l).
Proof.
  induction l as [|h t IH]; intros a Ha Hl; simpl.
  - repeat split; auto using leb_refl; contradiction.
  - inversion Hl as [|? ? Hh Ht]; subst.
    destruct (Math_max_step_spec a h Ha Hh) as (Hr & La & Lh).
    cbn zeta in Hr, La, Lh.
    assert (Hn : is_nan (Math_max_step a h) = false)
      by (destruct Hr as [-> | ->]; assumption).
    destruct (IH (Math_max_step a h) Hn Ht) as (N & L & Lt & Mem).
    split; [exact N|]. split; [eapply leb_trans; eassumption|]. split.
    + intros b [<- | Hb]; [eapply leb_trans; eassumption | auto].
    + destruct Mem as [Mem | Mem]; [|auto].
      rewrite Mem. destruct Hr as [-> | ->]; auto.
Qed.

(** X3.  For a bounding box whose size has numeric components,
    [currentSize] in [loadAsset] of either file is the largest of the
    absolute values of the three components: it is one of them, none of
    them exceeds it, and it is not negative. *)
Theorem currentSize_is_largest_extent (bb : BoundingBox) :
  numeric (size bb) ->
  let extents := [Math_abs (x (size bb)); Math_abs (y (size bb));
                  Math_abs (z (size bb))] in
  is_maximum_of (AssetTestScene.currentSize bb) extents
  /\ is_maximum_of (ArcheryGameScene.currentSize bb) extents
  /\ (0 <=? AssetTestScene.currentSize bb)%float = true.
Proof.
  intros (Nx & Ny & Nz) extents.
  change (ArcheryGameScene.currentSize bb)
    with (AssetTestScene.currentSize bb).
  assert (Hl : Forall (fun b => is_nan b = false) extents)
    by (subst extents; repeat constructor; now rewrite is_nan_abs).
  assert (E : AssetTestScene.currentSize bb
              = fold_left Math_max_step extents neg_infinity).
  { unfold AssetTestScene.currentSize, Math_max. fold extents.
    replace (existsb is_nan extents) with false; [reflexivity|].
    subst extents. cbn [existsb]. now rewrite !is_nan_abs, Nx, Ny, Nz. }
  destruct (fold_Math_max_step extents neg_infinity eq_refl Hl)
    as (_ & _ & Up & Mem).
  rewrite <- E in Up, Mem.
  assert (P : (0 <=? AssetTestScene.currentSize bb)%float = true).
  { eapply leb_trans; [apply (abs_nonneg _ Nx)|]. apply Up. now left. }
  assert (M : is_maximum_of (AssetTestScene.currentSize bb) extents).
  { split; [|exact Up]. destruct Mem as [Mem | Mem]; [|exact Mem].
    rewrite Mem in P. discriminate P. }
  auto.
Qed.

Lemma currentSize_is_largest_extent_witness :
  let bb := mkBoundingBox (mkVector3 0 0 0) (mkVector3 0.5 0.1 0.5)
                          (mkVector3 0.5 (-0.1) 0.25) in
  is_maximum_of (AssetTestScene.currentSize bb) [0.5; 0.1; 0.25]%float
  /\ (0 <=? AssetTestScene.currentSize bb)%float = true.
Proof.
  destruct (currentSize_is_largest_extent
              (mkBoundingBox (mkVector3 0 0 0) (mkVector3 0.5 0.1 0.5)
                             (mkVector3 0.5 (-0.1) 0.25)))
    as (A & _ & B).
  - repeat split.
  - split; [exact A | exact B].
Defined.

(** ** A bounding box with an extent that is not a number *)

Lemma div_by_nan (t : number) : (t / nan)%float = nan.
Proof.
  rewrite <- (SF2Prim_Prim2SF (t / nan)), div_spec.
  change (Prim2SF nan) with S754_nan.
  unfold SF64div, SFdiv.
  destruct (Prim2SF t) as [s|s| |s m e]; reflexivity.
Qed.

Lemma currentSize_nan (bb : BoundingBox) :
  is_nan (x (size bb)) = true \/ is_nan (y (size bb)) = true
  \/ is_nan (z (size bb)) = true ->
  AssetTestScene.currentSize bb = nan.
Proof.
  intros H. unfold AssetTestScene.currentSize, Math_max.
  replace (existsb is_nan _) with true; [reflexivity|].
  cbn [existsb]. rewrite !is_nan_abs.
  destruct H as [-> | [-> | ->]]; rewrite ?orb_true_r; reflexivity.
Qed.

(** X4.  When a component of the combined box's size is [NaN] (a box at
    infinity, or a [NaN] corner), [currentSize] is [NaN] and so is the
    scale factor, for every target size; [loadAsset] of either file still
    ends normally, leaves the scale [(NaN, NaN, NaN)] on the node chosen
    for the scale and appends the name. *)
Theorem nan_extent_gives_nan_scale (w : World) (rm : list ident)
    (fp fn : string) (pos rot : Vector3) (name : string) (ts : number)
    (bb : BoundingBox) :
  AssetTestScene.getBoundingBox (map (scene w) (usable_meshes (scene w) rm))
  = Some bb ->
  is_nan (x (size bb)) = true \/ is_nan (y (size bb)) = true
  \/ is_nan (z (size bb)) = true ->
  let target := scale_target (scene w) (rootMesh_of (scene w) rm) in
  AssetTestScene.scaleFactor ts bb = nan
  /\ ArcheryGameScene.scaleFactor ts bb = nan
  /\ (exists wt,
        AssetTestScene.loadAsset fp fn pos name ts (Resolved rm) w
        = (Normal undefined, wt)
        /\ scaling (scene wt target) = Some (mkVector3 nan nan nan)
        /\ loadedAssets wt = loadedAssets w ++ [name])
  /\ (exists wg,
        ArcheryGameScene.loadAsset fp fn pos rot name ts (Resolved rm) w
        = (Normal (NodeRef (rootMesh_of (scene w) rm)), wg)
        /\ scaling (scene wg target) = Some (mkVector3 nan nan nan)
        /\ loadedAssets wg = loadedAssets w ++ [name]).
Proof.
  intros H Hnan target.
  assert (S : AssetTestScene.scaleFactor ts bb = nan).
  { unfold AssetTestScene.scaleFactor.
    rewrite (currentSize_nan bb Hnan). apply div_by_nan. }
  assert (S' : ArcheryGameScene.scaleFactor ts bb = nan) by exact S.
  split; [exact S|]. split; [exact S'|]. split.
  - rewrite (AssetTest_loadAsset_placed w rm fp fn pos name ts bb H).
    eexists. split; [reflexivity|]. cbn [scene loadedAssets].
    split; [|reflexivity].
    rewrite S. apply AssetTest_store_after_scaling.
  - rewrite (ArcheryGame_loadAsset_placed w rm fp fn pos rot name ts bb H).
    eexists. split; [reflexivity|]. cbn [scene loadedAssets].
    split; [|reflexivity].
    rewrite S'. apply ArcheryGame_store_after_scaling.
Qed.

Lemma nan_extent_gives_nan_scale_witness :
  exists wt,
    AssetTestScene.loadAsset "target" "scene.gltf" (mkVector3 4 1 0)
      "Target" 3 (Resolved [9]) far_world
    = (Normal undefined, wt)
    /\ scaling (scene wt 9) = Some (mkVector3 nan nan nan)
    /\ loadedAssets wt = ["Target"].
Proof.
  destruct (nan_extent_gives_nan_scale far_world [9] "target" "scene.gltf"
              (mkVector3 4 1 0) Zero "Target" 3
              (mkBoundingBox (mkVector3 infinity 0 0) (mkVector3 infinity 1 1)
                             (mkVector3 nan 1 1))
              eq_refl (or_introl eq_refl)) as (_ & _ & T & _).
  exact T.
Defined.

(** ** Loads that do not succeed *)

(** X5.  A load that does not succeed, because the loader rejected or
    because it resolved without a [Mesh], leaves the store, the list of
    loaded assets and the [loading] flag exactly as they were in either
    scene: no transform is applied half way.  It only writes to the
    console, and returns [undefined] in the test scene and [null] in the
    game scene. *)
Theorem failed_load_changes_nothing (r : PlacementRequest)
    (o : LoaderOutcome) (w : World) :
  succeeds (scene w) (r, o) = false ->
  (exists c,
     AssetTest_task (r, o) w
     = (Normal undefined,
        mkWorld (scene w) (loadedAssets w) (loading w) (console w ++ c)))
  /\ (exists c,
        ArcheryGame_task (r, o) w
        = (Normal null,
           mkWorld (scene w) (loadedAssets w) (loading w) (console w ++ c))).
Proof.
  intros H. unfold AssetTest_task, ArcheryGame_task. cbn [fst snd].
  destruct o as [e|rm].
  - rewrite AssetTest_loadAsset_rejected, ArcheryGame_loadAsset_rejected.
    split; [|eauto].
    destruct e; [|eauto]. rewrite <- app_assoc. eauto.
  - rewrite succeeds_usable in H.
    destruct (usable_meshes (scene w) rm) as [|m ms] eqn:E; [|discriminate].
    rewrite AssetTest_loadAsset_no_mesh by exact E. split; [eauto|].
    destruct rm as [|first rest].
    + exists []. rewrite app_nil_r. now destruct w.
    + rewrite ArcheryGame_loadAsset_no_mesh by exact E. eauto.
Qed.

Lemma failed_load_changes_nothing_witness :
  (exists c,
     AssetTest_task
       (mkRequest "arrow" "scene.gltf" (mkVector3 0 1 0) Zero "Arrow" 5,
        Resolved [2; 5]) demo_world
     = (Normal undefined, mkWorld demo_scene [] true ([] ++ c)))
  /\ (exists c,
        ArcheryGame_task
          (mkRequest "arrow" "scene.gltf" (mkVector3 0 1 0) Zero "Arrow" 5,
           Resolved [2; 5]) demo_world
        = (Normal null, mkWorld demo_scene [] true ([] ++ c))).
Proof.
  apply (failed_load_changes_nothing
           (mkRequest "arrow" "scene.gltf" (mkVector3 0 1 0) Zero "Arrow" 5)
           (Resolved [2; 5]) demo_world).
  reflexivity.
Defined.

(** ** What the game scene's loadAsset returns *)

Lemma rootMesh_of_In (sc : Scene) (rm : list ident) :
  rm <> [] -> In (rootMesh_of sc rm) rm.
Proof.
  intros H. unfold rootMesh_of, find_rootMesh.
  destruct (find _ rm) as [m|] eqn:F.
  - apply find_some in F. apply F.
  - destruct rm as [|first rest]; [congruence | now left].
Qed.

Lemma ArcheryGame_task_result (l : Load) (w : World) :
  exists w1,
    ArcheryGame_task l w = (Normal (game_result (scene w) (snd l)), w1)
    /\ keeps (scene w) (scene w1)
    /\ loadedAssets w1
       = loadedAssets w ++ (if succeeds (scene w) l then [load_name l] else []).
Proof.
  destruct l as [r o]. unfold ArcheryGame_task, load_name. cbn [fst snd].
  destruct o as [e|rm].
  - rewrite ArcheryGame_loadAsset_rejected. eexists.
    split; [reflexivity|]. split; [apply keeps_refl|].
    cbn. now rewrite app_nil_r.
  - rewrite succeeds_usable. unfold game_result.
    destruct (usable_meshes (scene w) rm) as [|m ms] eqn:E.
    + rewrite (proj1 (usable_meshes_nil _ _) E).
      destruct rm as [|first rest].
      * exists w. split; [reflexivity|]. split; [apply keeps_refl|].
        now rewrite app_nil_r.
      * rewrite ArcheryGame_loadAsset_no_mesh by exact E. eexists.
        split; [reflexivity|]. split; [apply keeps_refl|].
        cbn. now rewrite app_nil_r.
    + destruct (existsb _ rm) eqn:Ex;
        [|apply usable_meshes_nil in Ex; congruence].
      destruct (getBoundingBox_cons (scene w m) (map (scene w) ms)) as [bb Hbb].
      rewrite (ArcheryGame_loadAsset_placed w rm _ _ _ _ _ _ bb)
        by (rewrite getBoundingBox_same, E; exact Hbb).
      eexists. split; [reflexivity|].
      split; [apply ArcheryGame_store_after_keeps | reflexivity].
Qed.

(** X6.  In the game scene [loadAsset] returns a node exactly when the load
    succeeds, that is when it appends the name: the node is the root, and
    the root is one of the nodes of [result.meshes] (not necessarily a
    [Mesh]).  In every other case it returns [null] and appends
    nothing. *)
Theorem game_loadAsset_returns_root_iff_loaded (l : Load) (w : World) :
  let r := ArcheryGame_task l w in
  (succeeds (scene w) l = true ->
   exists rm, snd l = Resolved rm
              /\ fst r = Normal (NodeRef (rootMesh_of (scene w) rm))
              /\ In (rootMesh_of (scene w) rm) rm
              /\ loadedAssets (snd r) = loadedAssets w ++ [load_name l])
  /\ (succeeds (scene w) l = false ->
      fst r = Normal null /\ loadedAssets (snd r) = loadedAssets w).
Proof.
  cbn zeta. destruct (ArcheryGame_task_result l w) as (w1 & E & _ & A).
  rewrite E. cbn [fst snd]. rewrite A. split; intros H; rewrite H.
  - unfold succeeds in H. unfold game_result.
    destruct (snd l) as [e|rm]; [discriminate|].
    exists rm. rewrite H. repeat split.
    apply rootMesh_of_In. intros ->. discriminate H.
  - split; [|apply app_nil_r].
    unfold succeeds in H. unfold game_result.
    destruct (snd l) as [e|rm]; [reflexivity|]. now rewrite H.
Qed.

Lemma game_loadAsset_returns_root_iff_loaded_witness :
  fst (ArcheryGame_task
         (mkRequest "target" "scene.gltf" (mkVector3 0 1.5 12) Zero
                    "Target" 4, Resolved [2; 1]) demo_world)
  = Normal (NodeRef 2)
  /\ fst (ArcheryGame_task
            (mkRequest "target" "scene.gltf" (mkVector3 0 1.5 12) Zero
                       "Target" 4, Resolved [2; 5]) demo_world)
     = Normal null.
Proof.
  split.
  - destruct (proj1 (game_loadAsset_returns_root_iff_loaded
                       (mkRequest "target" "scene.gltf" (mkVector3 0 1.5 12)
                                  Zero "Target" 4, Resolved [2; 1])
                       demo_world) eq_refl)
      as (rm & E & R & _).
    injection E as <-. exact R.
  - apply (proj2 (game_loadAsset_returns_root_iff_loaded
                    (mkRequest "target" "scene.gltf" (mkVector3 0 1.5 12)
                               Zero "Target" 4, Resolved [2; 5])
                    demo_world) eq_refl).
Defined.

(** ** The results the barrier hands to its callback *)

Lemma game_result_keeps (sc sc' : Scene) (o : LoaderOutcome) :
  keeps sc sc' -> game_result sc' o = game_result sc o.
Proof.
  intros K. unfold game_result. destruct o as [e|rm]; [reflexivity|].
  rewrite (rootMesh_of_keeps _ _ rm K).
  replace (existsb (fun m => instanceof_Mesh (sc' m)) rm)
    with (existsb (fun m => instanceof_Mesh (sc m)) rm); [reflexivity|].
  induction rm as [|m rm IH]; [reflexivity|]. simpl.
  destruct (K m) as (-> & _). now rewrite IH.
Qed.

Lemma settle_all_game_results (loads : list Load) (order : list nat) :
  forall (results : list (option (Completion Value))) (w : World),
    let r := settle_all (map ArcheryGame_task loads) order results w in
    keeps (scene w) (scene (snd r))
    /\ List.length (fst r) = List.length results
    /\ forall i l,
         nth_error loads i = Some l -> i < List.length results ->
         (In i order ->
          nth_error (fst r) i
          = Some (Some (Normal (game_result (scene w) (snd l)))))
         /\ (~ In i order -> nth_error (fst r) i = nth_error results i).
Proof.
  induction order as [|i0 rest IH]; intros results w; cbn zeta.
  - simpl. split; [apply keeps_refl|]. split; [reflexivity|].
    intros i l _ _. split; [intros [] | reflexivity].
  - simpl. rewrite nth_error_map.
    destruct (nth_error loads i0) as [l0|] eqn:E0; simpl.
    + destruct (ArcheryGame_task_result l0 w) as (w1 & Et & K1 & _).
      rewrite Et.
      destruct (IH (set_nth i0 (Some (Normal (game_result (scene w) (snd l0))))
                       results) w1) as (K & Hlen & Hval).
      split; [eapply keeps_trans; eassumption|].
      split; [now rewrite Hlen, set_nth_length|].
      intros i l Hl Hi.
      destruct (Hval i l Hl) as [Hin Hout]; [now rewrite set_nth_length|].
      destruct (in_dec Nat.eq_dec i rest) as [Hr | Hr].
      * split; [|intros N; exfalso; apply N; now right].
        intros _. rewrite (Hin Hr). now rewrite (game_result_keeps _ _ _ K1).
      * split.
        -- intros [<- | Hr']; [|contradiction].
           rewrite (Hout Hr), set_nth_same by exact Hi. congruence.
        -- intros N. rewrite (Hout Hr). apply set_nth_other.
           intros ->. apply N. now left.
    + destruct (IH results w) as (K & Hlen & Hval).
      split; [exact K|]. split; [exact Hlen|].
      intros i l Hl Hi. destruct (Hval i l Hl Hi) as [Hin Hout].
      split.
      * intros [<- | Hr]; [congruence | auto].
      * intros N. apply Hout. intros Hr. apply N. now right.
Qed.

Lemma fulfilled_values_exact (rs : list (option (Completion Value))) :
  forall vs : list Value,
    List.length rs = List.length vs ->
    (forall i v, nth_error vs i = Some v ->
                 nth_error rs i = Some (Some (Normal v))) ->
    fulfilled_values rs = Some vs.
Proof.
  induction rs as [|r rs IH]; intros [|v vs] Hlen H; try discriminate.
  - reflexivity.
  - pose proof (H 0 v eq_refl) as H0. injection H0 as ->.
    simpl. rewrite (IH vs); [reflexivity | simpl in Hlen; lia |].
    intros i v' Hi. apply (H (S i) v' Hi).
Qed.

Lemma Promise_all_then_game_results (loads : list Load) (order : list nat)
    (w : World) (callback : list Value -> M unit) :
  Permutation order (seq 0 (List.length loads)) ->
  Promise_all_then (map ArcheryGame_task loads) order callback w
  = snd (callback (map (fun l => game_result (scene w) (snd l)) loads)
                  (settled (map ArcheryGame_task loads) order w))
  /\ keeps (scene w) (scene (settled (map ArcheryGame_task loads) order w)).
Proof.
  intros P. unfold Promise_all_then, settled.
  pose proof (settle_all_game_results loads order
                (repeat None (List.length (map ArcheryGame_task loads))) w)
    as S.
  cbn zeta in S.
  destruct (settle_all (map ArcheryGame_task loads) order
              (repeat None (List.length (map ArcheryGame_task loads))) w)
    as [results w1].
  cbn [fst snd] in *. destruct S as (K & Hlen & Hval).
  rewrite repeat_length, length_map in Hlen.
  split; [|exact K].
  rewrite (fulfilled_values_exact results
             (map (fun l => game_result (scene w) (snd l)) loads));
    [reflexivity | now rewrite length_map |].
  intros i v Hi. rewrite nth_error_map in Hi.
  unfold Load in *.
  destruct (nth_error loads i) as [l|] eqn:El; cbn [option_map] in Hi;
    [|discriminate Hi].
  injection Hi as <-.
  assert (Hlt : i < List.length loads)
    by (apply nth_error_Some; congruence).
  apply (Hval i l El).
  - now rewrite repeat_length, length_map.
  - apply (Permutation_in i (Permutation_sym P)). apply in_seq. lia.
Qed.

(** X7.  Whatever the order in which the loads of the game scene complete,
    the callback of [Promise.all] receives their results in the order of
    the requests: entry [i] is the root of load [i] when that load
    succeeded and [null] otherwise, as read in the store before the
    batch.  (The list of loaded assets, in contrast, is in completion
    order.) *)
Theorem callback_gets_results_in_request_order (loads : list Load)
    (order : list nat) (w : World) (callback : list Value -> M unit) :
  Permutation order (seq 0 (List.length loads)) ->
  Promise_all_then (map ArcheryGame_task loads) order callback w
  = snd (callback (map (fun l => game_result (scene w) (snd l)) loads)
                  (settled (map ArcheryGame_task loads) order w)).
Proof. intros P. now apply Promise_all_then_game_results. Qed.

Lemma callback_gets_results_in_request_order_witness :
  Promise_all_then (map ArcheryGame_task demo_loads) [2; 0; 1]
    (fun _ => ret tt) demo_world
  = snd (ret tt (settled (map ArcheryGame_task demo_loads) [2; 0; 1]
                         demo_world))
  /\ map (fun l => game_result demo_scene (snd l)) demo_loads
     = [NodeRef 1; null; NodeRef 3].
Proof.
  split; [|reflexivity].
  apply (callback_gets_results_in_request_order demo_loads [2; 0; 1]
           demo_world (fun _ => ret tt)).
  apply (Permutation_cons_app [0; 1] [] 2). apply Permutation_refl.
Defined.

(** ** The callback without a bow *)

Lemma on_loaded_without_bow (camera : ident)
    (relative_transform : Scene -> ident -> ident
                          -> Vector3 * Vector3 * Vector3)
    (results : list Value) (w : World) :
  match nth 0 results undefined with
  | NodeRef b => instanceof_Mesh (scene w b) = false
  | _ => True
  end ->
  let w' := snd (ArcheryGameScene.on_loaded camera relative_transform
                   results w) in
  scene w' = scene w /\ loading w' = false.
Proof.
  intros H.
  set (w0 := mkWorld (scene w) (loadedAssets w) false
                     (console w ++ [log_game_scene_loaded])).
  assert (E : snd (ArcheryGameScene.on_loaded camera relative_transform
                     results w)
              = snd (ArcheryGameScene.report_target
                       (nth 1 results undefined) w0)).
  { unfold ArcheryGameScene.on_loaded, ArcheryGameScene.hold_bow.
    destruct (nth 0 results undefined) as [| |b];
      unfold bind, setLoading, console_write, get_scene, ret;
      cbn [scene loadedAssets loading console fst snd];
      try reflexivity.
    rewrite H. reflexivity. }
  cbn zeta. rewrite E.
  destruct (report_target_keeps_scene (nth 1 results undefined) w0)
    as [-> ->].
  split; reflexivity.
Qed.

(** X8.  In the game scene, when the bow load does not succeed, or its
    root is not a [Mesh], the callback of the barrier re-parents nothing
    and moves nothing: the store after the whole effect is the store the
    two loads left, whatever the order in which they completed, and
    [loading] is [false]. *)
Theorem without_bow_the_callback_moves_nothing (camera : ident)
    (relative_transform : Scene -> ident -> ident
                          -> Vector3 * Vector3 * Vector3)
    (bow target : LoaderOutcome) (order : list nat) (w : World) :
  Permutation order [0; 1] ->
  match game_result (scene w) bow with
  | NodeRef b => instanceof_Mesh (scene w b) = false
  | _ => True
  end ->
  let w' := ArcheryGameScene.load_all camera relative_transform bow target
              order w in
  let w1 :=
    settled
      [ArcheryGameScene.loadAsset "recurve_bow" "scene.gltf"
         (mkVector3 0 0 0) (mkVector3 0 0 0) "Recurve Bow" 0.8 bow;
       ArcheryGameScene.loadAsset "target" "scene.gltf" (mkVector3 0 1.5 12)
         (mkVector3 0 (Math_PI / 2) 0) "Target" 4 target]
      order w in
  scene w' = scene w1 /\ loading w' = false.
Proof.
  intros P H.
  pose (loads :=
          [(mkRequest "recurve_bow" "scene.gltf" (mkVector3 0 0 0)
                      (mkVector3 0 0 0) "Recurve Bow" 0.8, bow);
           (mkRequest "target" "scene.gltf" (mkVector3 0 1.5 12)
                      (mkVector3 0 (Math_PI / 2) 0) "Target" 4, target)]).
  destruct (Promise_all_then_game_results loads order w
              (ArcheryGameScene.on_loaded camera relative_transform) P)
    as [E K].
  change (map ArcheryGame_task loads)
    with [ArcheryGameScene.loadAsset "recurve_bow" "scene.gltf"
            (mkVector3 0 0 0) (mkVector3 0 0 0) "Recurve Bow" 0.8 bow;
          ArcheryGameScene.loadAsset "target" "scene.gltf"
            (mkVector3 0 1.5 12) (mkVector3 0 (Math_PI / 2) 0) "Target" 4
            target] in E, K.
  cbn zeta. unfold ArcheryGameScene.load_all. rewrite E.
  apply on_loaded_without_bow. cbn [map nth loads snd].
  destruct (game_result (scene w) bow) as [| |b]; auto.
  destruct (K b) as (-> & _). exact H.
Qed.

Lemma without_bow_the_callback_moves_nothing_witness :
  let w' := ArcheryGameScene.load_all 5 (fun _ _ _ => (Zero, Zero, Zero))
              (Rejected (ErrorObject "not found")) (Resolved [1]) [1; 0]
              demo_world in
  loading w' = false.
Proof.
  apply (without_bow_the_callback_moves_nothing 5
           (fun _ _ _ => (Zero, Zero, Zero))
           (Rejected (ErrorObject "not found")) (Resolved [1]) [1; 0]
           demo_world).
  - apply perm_swap.
  - exact I.
Defined.

(** ** Loads on separate nodes *)

Lemma AssetTest_task_effect (l : Load) (w : World) :
  scene (snd (AssetTest_task l w)) = AssetTest_effect (scene w) l.
Proof.
  destruct l as [r [e|rm]]; unfold AssetTest_task, AssetTest_effect;
    cbn [fst snd].
  - now rewrite AssetTest_loadAsset_rejected.
  - destruct (AssetTestScene.getBoundingBox
                (map (scene w) (usable_meshes (scene w) rm))) as [bb|] eqn:E.
    + now rewrite (AssetTest_loadAsset_placed w rm _ _ _ _ _ bb E).
    + destruct (usable_meshes (scene w) rm) as [|m ms] eqn:U.
      * now rewrite AssetTest_loadAsset_no_mesh by exact U.
      * destruct (getBoundingBox_cons (scene w m) (map (scene w) ms))
          as [bb Hbb].
        cbn [map] in E. rewrite Hbb in E. discriminate E.
Qed.

Lemma ArcheryGame_task_effect (l : Load) (w : World) :
  scene (snd (ArcheryGame_task l w)) = ArcheryGame_effect (scene w) l.
Proof.
  destruct l as [r [e|rm]]; unfold ArcheryGame_task, ArcheryGame_effect;
    cbn [fst snd].
  - now rewrite ArcheryGame_loadAsset_rejected.
  - destruct (ArcheryGameScene.getBoundingBox
                (map (scene w) (usable_meshes (scene w) rm))) as [bb|] eqn:E.
    + now rewrite (ArcheryGame_loadAsset_placed w rm _ _ _ _ _ _ bb E).
    + rewrite getBoundingBox_same in E.
      destruct (usable_meshes (scene w) rm) as [|m ms] eqn:U.
      * destruct rm as [|first rest]; [reflexivity|].
        now rewrite ArcheryGame_loadAsset_no_mesh by exact U.
      * destruct (getBoundingBox_cons (scene w m) (map (scene w) ms))
          as [bb Hbb].
        cbn [map] in E. rewrite Hbb in E. discriminate E.
Qed.

Ltac store_after_open :=
  unfold AssetTest_store_after, ArcheryGame_store_after, scale_target,
    parent_with, touched in *;
  cbv zeta.

(** A placement writes the root and its parent, and no other node. *)
Lemma AssetTest_store_after_elsewhere (sc : Scene) (root : ident)
    (s : number) (pos : Vector3) (j : ident) :
  ~ In j (touched sc root) ->
  AssetTest_store_after sc root s pos j = sc j.
Proof.
  intros H. store_after_open.
  destruct (parent (sc root)) as [p|] eqn:Ep; cbn [In] in H;
    unfold upd; rewrite ?Nat.eqb_refl; cbn [parent set_position set_scaling];
    rewrite ?Ep;
    repeat match goal with
           | |- context [Nat.eqb ?a ?b] => destruct (Nat.eqb_spec a b); subst
           | |- context [isSome ?o] => destruct (isSome o)
           | _ => progress cbn [parent set_position set_scaling] in *
           | _ => rewrite Ep in *
           end;
    try reflexivity; try tauto.
Qed.

Ltac store_after_crunch Ep :=
  unfold upd; rewrite ?Nat.eqb_refl;
  cbn [parent scaling position rotation set_position set_scaling
       set_rotation];
  rewrite ?Ep;
  repeat match goal with
         | |- context [Nat.eqb ?a ?b] => destruct (Nat.eqb_spec a b); subst
         | |- context [isSome ?o] => destruct (isSome o)
         | _ => progress cbn [parent scaling position rotation set_position
                              set_scaling set_rotation] in *
         | _ => rewrite Ep in *
         end;
  try reflexivity; try tauto; try congruence.

Lemma ArcheryGame_store_after_elsewhere (sc : Scene) (root : ident)
    (s : number) (pos rot : Vector3) (j : ident) :
  ~ In j (touched sc root) ->
  ArcheryGame_store_after sc root s pos rot j = sc j.
Proof.
  intros H. store_after_open.
  destruct (parent (sc root)) as [p|] eqn:Ep; cbn [In] in H;
    store_after_crunch Ep.
Qed.

Ltac store_after_agree Ep Hroot Hp :=
  unfold upd; rewrite ?Nat.eqb_refl;
  repeat match goal with
         | _ => rewrite Hroot
         | _ => rewrite Hp
         | _ => rewrite Ep
         | _ => progress cbn [parent scaling position rotation set_position
                              set_scaling set_rotation]
         | |- context [Nat.eqb ?a ?b] => destruct (Nat.eqb_spec a b); subst
         | |- context [isSome ?o] => destruct (isSome o)
         end;
  try reflexivity; try tauto; try congruence.

(** What a placement writes depends on the root and its parent only. *)
Lemma AssetTest_store_after_local (sc sc' : Scene) (root : ident)
    (s : number) (pos : Vector3) (j : ident) :
  (forall i, In i (touched sc root) -> sc' i = sc i) ->
  In j (touched sc root) ->
  AssetTest_store_after sc' root s pos j = AssetTest_store_after sc root s pos j.
Proof.
  intros H Hj.
  assert (Hroot : sc' root = sc root) by (apply H; now left).
  assert (Hp : forall p, parent (sc root) = Some p -> sc' p = sc p).
  { intros p Ep. apply H. unfold touched. rewrite Ep. right. now left. }
  clear H. store_after_open. unfold upd. rewrite ?Hroot.
  destruct (parent (sc root)) as [p|] eqn:Ep.
  - specialize (Hp p eq_refl).
    destruct Hj as [<- | [<- | []]]; store_after_agree Ep Hroot Hp.
  - clear Hp. destruct Hj as [<- | []]. store_after_agree Ep Hroot Hroot.
Qed.

Lemma ArcheryGame_store_after_local (sc sc' : Scene) (root : ident)
    (s : number) (pos rot : Vector3) (j : ident) :
  (forall i, In i (touched sc root) -> sc' i = sc i) ->
  In j (touched sc root) ->
  ArcheryGame_store_after sc' root s pos rot j
  = ArcheryGame_store_after sc root s pos rot j.
Proof.
  intros H Hj.
  assert (Hroot : sc' root = sc root) by (apply H; now left).
  assert (Hp : forall p, parent (sc root) = Some p -> sc' p = sc p).
  { intros p Ep. apply H. unfold touched. rewrite Ep. right. now left. }
  clear H. store_after_open. unfold upd. rewrite ?Hroot.
  destruct (parent (sc root)) as [p|] eqn:Ep.
  - specialize (Hp p eq_refl).
    destruct Hj as [<- | [<- | []]]; store_after_agree Ep Hroot Hp.
  - clear Hp. destruct Hj as [<- | []]. store_after_agree Ep Hroot Hroot.
Qed.


Lemma find_agree {A : Type} (f g : A -> bool) (l : list A) :
  (forall a, In a l -> f a = g a) -> find f l = find g l.
Proof.
  induction l as [|a l IH]; intros H; [reflexivity|]. simpl.
  rewrite (H a) by now left. rewrite IH; [reflexivity|].
  intros b Hb. apply H. now right.
Qed.

(** Two stores that agree on the nodes of a load give it the same
    footprint. *)
Lemma footprint_agree (sc sc' : Scene) (l : Load) :
  (forall i, In i (footprint sc l) -> sc' i = sc i) ->
  footprint sc' l = footprint sc l.
Proof.
  unfold footprint. destruct (snd l) as [e|[|first rest]]; try reflexivity.
  set (rm := first :: rest). intros H.
  assert (R : rootMesh_of sc' rm = rootMesh_of sc rm).
  { unfold rootMesh_of, find_rootMesh.
    rewrite (find_agree (fun mesh => negb (isSome (parent (sc' mesh))))
               (fun mesh => negb (isSome (parent (sc mesh)))) rm);
      [reflexivity|].
    intros a Ha. rewrite H; [reflexivity | apply in_or_app; now left]. }
  rewrite R. unfold touched. rewrite H; [reflexivity|].
  apply in_or_app. right. now left.
Qed.

Section Effects.

Variable effect : Scene -> Load -> Scene.

(** The effect of a load leaves the nodes outside its footprint alone. *)
Hypothesis effect_elsewhere :
  forall sc l j, ~ In j (footprint sc l) -> effect sc l j = sc j.

(** The effect of a load on its footprint depends on its footprint
    only. *)
Hypothesis effect_local :
  forall sc sc' l j,
    (forall i, In i (footprint sc l) -> sc' i = sc i) ->
    In j (footprint sc l) -> effect sc' l j = effect sc l j.

Lemma effects_commute (sc : Scene) (a b : Load) :
  (forall j, In j (footprint sc a) -> In j (footprint sc b) -> False) ->
  forall j, effect (effect sc a) b j = effect (effect sc b) a j.
Proof.
  intros D j.
  assert (Ab : forall i, In i (footprint sc b) -> effect sc a i = sc i).
  { intros i Hi. apply effect_elsewhere. intros Ha. exact (D i Ha Hi). }
  assert (Ba : forall i, In i (footprint sc a) -> effect sc b i = sc i).
  { intros i Hi. apply effect_elsewhere. intros Hb. exact (D i Hi Hb). }
  pose proof (footprint_agree sc (effect sc a) b Ab) as Fb.
  pose proof (footprint_agree sc (effect sc b) a Ba) as Fa.
  destruct (in_dec Nat.eq_dec j (footprint sc a)) as [Ha | Ha];
    destruct (in_dec Nat.eq_dec j (footprint sc b)) as [Hb | Hb].
  - destruct (D j Ha Hb).
  - rewrite (effect_elsewhere (effect sc a) b j) by now rewrite Fb.
    now rewrite (effect_local sc (effect sc b) a j Ba Ha).
  - rewrite (effect_elsewhere (effect sc b) a j) by now rewrite Fa.
    now rewrite (effect_local sc (effect sc a) b j Ab Hb).
  - rewrite (effect_elsewhere (effect sc a) b j) by now rewrite Fb.
    rewrite (effect_elsewhere (effect sc b) a j) by now rewrite Fa.
    rewrite !effect_elsewhere by assumption. reflexivity.
Qed.

End Effects.

Lemma box_gives_first (sc : Scene) (rm : list ident) (bb : BoundingBox) :
  AssetTestScene.getBoundingBox (map sc (usable_meshes sc rm)) = Some bb ->
  exists first rest, rm = first :: rest.
Proof.
  intros H. destruct (box_gives_meshes _ _ _ H) as (first & rest & _ & _ & E & _).
  eauto.
Qed.

Lemma AssetTest_effect_elsewhere (sc : Scene) (l : Load) (j : ident) :
  ~ In j (footprint sc l) -> AssetTest_effect sc l j = sc j.
Proof.
  unfold AssetTest_effect, footprint.
  destruct (snd l) as [e|rm]; [reflexivity|].
  destruct (AssetTestScene.getBoundingBox _) as [bb|] eqn:E; [|reflexivity].
  destruct (box_gives_first _ _ _ E) as (first & rest & ->).
  intros H. apply AssetTest_store_after_elsewhere.
  intros Hj. apply H, in_or_app. now right.
Qed.

Lemma ArcheryGame_effect_elsewhere (sc : Scene) (l : Load) (j : ident) :
  ~ In j (footprint sc l) -> ArcheryGame_effect sc l j = sc j.
Proof.
  unfold ArcheryGame_effect, footprint.
  destruct (snd l) as [e|rm]; [reflexivity|].
  rewrite getBoundingBox_same.
  destruct (AssetTestScene.getBoundingBox _) as [bb|] eqn:E; [|reflexivity].
  destruct (box_gives_first _ _ _ E) as (first & rest & ->).
  intros H. apply ArcheryGame_store_after_elsewhere.
  intros Hj. apply H, in_or_app. now right.
Qed.

(** What a load reads of the store: the same list of usable meshes, the
    same nodes behind them and the same root in two stores that agree on
    [result.meshes]. *)
Lemma reads_agree (sc sc' : Scene) (rm : list ident) :
  (forall i, In i rm -> sc' i = sc i) ->
  usable_meshes sc' rm = usable_meshes sc rm
  /\ map sc' (usable_meshes sc rm) = map sc (usable_meshes sc rm)
  /\ rootMesh_of sc' rm = rootMesh_of sc rm.
Proof.
  intros H. split; [|split].
  - unfold usable_meshes. apply filter_ext_in. intros a Ha. now rewrite H.
  - apply map_ext_in. intros a Ha. apply H.
    unfold usable_meshes in Ha. apply filter_In in Ha. apply Ha.
  - unfold rootMesh_of, find_rootMesh.
    rewrite (find_agree (fun mesh => negb (isSome (parent (sc' mesh))))
               (fun mesh => negb (isSome (parent (sc mesh)))) rm);
      [reflexivity|].
    intros a Ha. now rewrite H.
Qed.

Lemma AssetTest_effect_local (sc sc' : Scene) (l : Load) (j : ident) :
  (forall i, In i (footprint sc l) -> sc' i = sc i) ->
  In j (footprint sc l) -> AssetTest_effect sc' l j = AssetTest_effect sc l j.
Proof.
  unfold AssetTest_effect, footprint.
  destruct (snd l) as [e|[|first rest]]; [intros _ [] | intros _ [] |].
  set (rm := first :: rest). intros H Hj.
  destruct (reads_agree sc sc' rm) as (U & M & R).
  { intros i Hi. apply H, in_or_app. now left. }
  rewrite U, M, R.
  destruct (AssetTestScene.getBoundingBox _) as [bb|]; [|exact (H j Hj)].
  destruct (in_dec Nat.eq_dec j (touched sc (rootMesh_of sc rm))) as [T | T].
  - apply AssetTest_store_after_local; [|exact T].
    intros i Hi. apply H, in_or_app. now right.
  - rewrite (AssetTest_store_after_elsewhere sc) by exact T.
    rewrite AssetTest_store_after_elsewhere; [exact (H j Hj)|].
    unfold touched in *. rewrite H; [exact T|].
    apply in_or_app. right. now left.
Qed.

Lemma ArcheryGame_effect_local (sc sc' : Scene) (l : Load) (j : ident) :
  (forall i, In i (footprint sc l) -> sc' i = sc i) ->
  In j (footprint sc l) ->
  ArcheryGame_effect sc' l j = ArcheryGame_effect sc l j.
Proof.
  unfold ArcheryGame_effect, footprint.
  destruct (snd l) as [e|[|first rest]]; [intros _ [] | intros _ [] |].
  set (rm := first :: rest). intros H Hj.
  destruct (reads_agree sc sc' rm) as (U & M & R).
  { intros i Hi. apply H, in_or_app. now left. }
  rewrite U, M, R.
  destruct (ArcheryGameScene.getBoundingBox _) as [bb|]; [|exact (H j Hj)].
  destruct (in_dec Nat.eq_dec j (touched sc (rootMesh_of sc rm))) as [T | T].
  - apply ArcheryGame_store_after_local; [|exact T].
    intros i Hi. apply H, in_or_app. now right.
  - rewrite (ArcheryGame_store_after_elsewhere sc) by exact T.
    rewrite ArcheryGame_store_after_elsewhere; [exact (H j Hj)|].
    unfold touched in *. rewrite H; [exact T|].
    apply in_or_app. right. now left.
Qed.

Lemma two_tasks_lists (task : Load -> M Value) (a b : Load) (w : World) :
  task_step task ->
  loadedAssets (snd (task b (snd (task a w))))
  = (loadedAssets w
     ++ (if succeeds (scene w) a then [load_name a] else []))
    ++ (if succeeds (scene w) b then [load_name b] else [])
  /\ loading (snd (task b (snd (task a w)))) = loading w.
Proof.
  intros T. destruct (T a w) as (va & sca & ca & Ea & Ca & _).
  rewrite Ea. cbn [snd].
  destruct (T b (mkWorld sca
                   (loadedAssets w
                    ++ (if succeeds (scene w) a then [load_name a] else []))
                   (loading w) (console w ++ ca)))
    as (vb & scb & cb & Eb & _ & _).
  rewrite Eb. cbn [snd loadedAssets loading scene].
  now rewrite (succeeds_same_classes _ _ b Ca).
Qed.

Lemma swapped_lists (la na nb : list string) :
  Permutation ((la ++ na) ++ nb) ((la ++ nb) ++ na).
Proof.
  rewrite <- !app_assoc. apply Permutation_app_head, Permutation_app_comm.
Qed.

(** X9.  Two loads on separate nodes can complete in either order: when no
    node is in the footprint of both (the nodes of [result.meshes], the
    root and the root's parent), running the first load and then the
    second leaves every node as running the second and then the first
    does, in either scene; [loading] is the same, and the two lists of
    loaded assets hold the same names, in the order of completion. *)
Theorem separate_loads_commute (a b : Load) (w : World) :
  (forall j, In j (footprint (scene w) a) -> In j (footprint (scene w) b)
             -> False) ->
  let tab := snd (AssetTest_task b (snd (AssetTest_task a w))) in
  let tba := snd (AssetTest_task a (snd (AssetTest_task b w))) in
  let gab := snd (ArcheryGame_task b (snd (ArcheryGame_task a w))) in
  let gba := snd (ArcheryGame_task a (snd (ArcheryGame_task b w))) in
  ((forall j, scene tab j = scene tba j)
   /\ loading tab = loading tba
   /\ Permutation (loadedAssets tab) (loadedAssets tba))
  /\ ((forall j, scene gab j = scene gba j)
      /\ loading gab = loading gba
      /\ Permutation (loadedAssets gab) (loadedAssets gba)).
Proof.
  intros D. cbn zeta. split.
  - destruct (two_tasks_lists AssetTest_task a b w AssetTest_task_step)
      as [Lab Fab].
    destruct (two_tasks_lists AssetTest_task b a w AssetTest_task_step)
      as [Lba Fba].
    split; [|split].
    + intros j. rewrite !AssetTest_task_effect.
      apply (effects_commute AssetTest_effect AssetTest_effect_elsewhere
               AssetTest_effect_local (scene w) a b D).
    + congruence.
    + rewrite Lab, Lba. apply swapped_lists.
  - destruct (two_tasks_lists ArcheryGame_task a b w ArcheryGame_task_step)
      as [Lab Fab].
    destruct (two_tasks_lists ArcheryGame_task b a w ArcheryGame_task_step)
      as [Lba Fba].
    split; [|split].
    + intros j. rewrite !ArcheryGame_task_effect.
      apply (effects_commute ArcheryGame_effect ArcheryGame_effect_elsewhere
               ArcheryGame_effect_local (scene w) a b D).
    + congruence.
    + rewrite Lab, Lba. apply swapped_lists.
Qed.


Lemma separate_loads_commute_witness :
  let a := (mkRequest "recurve_bow" "scene.gltf" (mkVector3 (-4) 1 0) Zero
                      "Recurve Bow" 2.5, Resolved [1]) in
  let b := (mkRequest "target" "scene.gltf" (mkVector3 4 1 0) Zero
                      "Target" 3, Resolved [3]) in
  (forall j,
     scene (snd (AssetTest_task b (snd (AssetTest_task a demo_world)))) j
     = scene (snd (AssetTest_task a (snd (AssetTest_task b demo_world)))) j)
  /\ Permutation
       (loadedAssets (snd (ArcheryGame_task b
                             (snd (ArcheryGame_task a demo_world)))))
       (loadedAssets (snd (ArcheryGame_task a
                             (snd (ArcheryGame_task b demo_world))))).
Proof.
  intros a b.
  assert (D : forall j, In j (footprint (scene demo_world) a) ->
                        In j (footprint (scene demo_world) b) -> False).
  { intros j Ha Hb. cbn in Ha, Hb.
    destruct Ha as [<- | [<- | [<- | []]]];
      destruct Hb as [Hb | [Hb | []]]; discriminate Hb. }
  destruct (separate_loads_commute a b demo_world D)
    as ((S & _ & _) & (_ & _ & P)).
  split; [exact S | exact P].
Defined.

(** ** The panel after the loads *)

Lemma item_keys_list_items (placeholder : string) (names : list string) :
  item_keys (list_items placeholder names) = names.
Proof.
  unfold list_items, item_keys. rewrite flat_map_app.
  replace (flat_map _ (if Nat.eqb (List.length names) 0
                       then [plain_item placeholder] else []))
    with (@nil string) by (destruct (Nat.eqb _ 0); reflexivity).
  simpl. induction names as [|n names IH]; [reflexivity|].
  simpl. now rewrite IH.
Qed.

(** The loads that succeed, among loads with distinct names, have
    distinct names. *)
Lemma successes_have_distinct_names (sc : Scene) (loads : list Load) :
  NoDup (map load_name loads) ->
  NoDup (map load_name (filter (succeeds sc) loads)).
Proof.
  induction loads as [|l loads IH]; intros H; [constructor|].
  cbn [map] in H. apply NoDup_cons_iff in H as [Hfresh Hrest].
  cbn [filter]. destruct (succeeds sc l); [|exact (IH Hrest)].
  cbn [map]. apply NoDup_cons; [|exact (IH Hrest)].
  intros Hin. apply Hfresh. clear - Hin.
  induction loads as [|l' loads IH]; [destruct Hin|].
  cbn [filter] in Hin. destruct (succeeds sc l').
  - destruct Hin as [<- | Hin]; [now left | right; now apply IH].
  - right. now apply IH.
Qed.

Lemma loaded_names_NoDup (sc : Scene) (loads : list Load) (order : list nat) :
  Permutation order (seq 0 (List.length loads)) ->
  NoDup (map load_name loads) ->
  NoDup (loaded_names sc loads order).
Proof.
  intros P H. unfold loaded_names. apply successes_have_distinct_names.
  apply (Permutation_NoDup (l := map load_name loads)); [|exact H].
  apply Permutation_map, Permutation_sym.
  now apply in_completion_order_permutation.
Qed.

Lemma loaded_names_nil (sc : Scene) (loads : list Load) (order : list nat) :
  (forall l, In l loads -> succeeds sc l = false) ->
  loaded_names sc loads order = [].
Proof.
  intros H. unfold loaded_names, in_completion_order.
  induction order as [|i order IH]; [reflexivity|]. simpl.
  rewrite filter_app, map_app, IH, app_nil_r.
  destruct (nth_error loads i) as [l|] eqn:E; [|reflexivity].
  simpl. rewrite (H l (nth_error_In _ _ E)). reflexivity.
Qed.

Lemma AssetTest_batch_state (loads : list Load) (order : list nat)
    (w : World) :
  Permutation order (seq 0 (List.length loads)) ->
  let w' := Promise_all_then (map AssetTest_task loads) order
              AssetTestScene.on_loaded w in
  loading w' = false
  /\ loadedAssets w' = loadedAssets w ++ loaded_names (scene w) loads order
  /\ forall j, instanceof_Mesh (scene w' j) = instanceof_Mesh (scene w j).
Proof.
  intros P.
  destruct (Promise_all_then_spec AssetTest_task AssetTest_task_step loads
              AssetTestScene.on_loaded order w P)
    as (values & w1 & E & Hla & _ & Hc & _).
  cbn zeta. rewrite E, AssetTest_on_loaded_effect.
  cbn [loading loadedAssets scene]. auto.
Qed.

Lemma ArcheryGame_batch_state (camera : ident)
    (relative_transform : Scene -> ident -> ident
                          -> Vector3 * Vector3 * Vector3)
    (loads : list Load) (order : list nat) (w : World) :
  Permutation order (seq 0 (List.length loads)) ->
  let w' := Promise_all_then (map ArcheryGame_task loads) order
              (ArcheryGameScene.on_loaded camera relative_transform) w in
  loading w' = false
  /\ loadedAssets w' = loadedAssets w ++ loaded_names (scene w) loads order.
Proof.
  intros P.
  destruct (Promise_all_then_spec ArcheryGame_task ArcheryGame_task_step
              loads (ArcheryGameScene.on_loaded camera relative_transform)
              order w P)
    as (values & w1 & E & Hla & _ & _ & _).
  cbn zeta. rewrite E.
  destruct (ArcheryGame_on_loaded_effect camera relative_transform
              values w1) as (L & A & _).
  split; [exact L|]. now rewrite A.
Qed.

(** X10.  What the two components render once the loads of a batch with
    distinct display names have settled, starting from an empty list: the
    loading panel is gone; the list shows one item per load that
    succeeded, in the order of completion, each under its display name as
    React key, so no two items share a key; and it shows the placeholder
    item alone when no load succeeded.  In the game scene that
    placeholder reads "Loading assets...", so after two failed loads the
    panel goes on saying so although [loading] is [false]. *)
Theorem panel_after_the_loads (loads : list Load) (order : list nat)
    (w : World) (camera : ident)
    (relative_transform : Scene -> ident -> ident
                          -> Vector3 * Vector3 * Vector3) :
  Permutation order (seq 0 (List.length loads)) ->
  loadedAssets w = [] ->
  NoDup (map load_name loads) ->
  let names := loaded_names (scene w) loads order in
  let vt := AssetTest_view
              (Promise_all_then (map AssetTest_task loads) order
                 AssetTestScene.on_loaded w) in
  let vg := ArcheryGame_view
              (Promise_all_then (map ArcheryGame_task loads) order
                 (ArcheryGameScene.on_loaded camera relative_transform) w) in
  (loading_panel vt = None
   /\ items vt = list_items "None yet..." names
   /\ NoDup (item_keys (items vt)))
  /\ (loading_panel vg = None
      /\ items vg = list_items "Loading assets..." names
      /\ NoDup (item_keys (items vg)))
  /\ ((forall l, In l loads -> succeeds (scene w) l = false) ->
      items vt = [plain_item "None yet..."]
      /\ items vg = [plain_item "Loading assets..."]).
Proof.
  intros P Hempty Hnames names vt vg.
  destruct (AssetTest_batch_state loads order w P) as (Lt & At & _).
  destruct (ArcheryGame_batch_state camera relative_transform loads order w P)
    as (Lg & Ag).
  cbn zeta in Lt, At, Lg, Ag. rewrite Hempty in At, Ag. cbn [app] in At, Ag.
  fold names in At, Ag.
  assert (N : NoDup names) by now apply loaded_names_NoDup.
  assert (It : items vt = list_items "None yet..." names)
    by (subst vt; unfold AssetTest_view; cbn [items]; now rewrite At).
  assert (Ig : items vg = list_items "Loading assets..." names)
    by (subst vg; unfold ArcheryGame_view; cbn [items]; now rewrite Ag).
  split; [|split].
  - split; [|split; [exact It|]].
    + subst vt. unfold AssetTest_view. cbn [loading_panel]. now rewrite Lt.
    + now rewrite It, item_keys_list_items.
  - split; [|split; [exact Ig|]].
    + subst vg. unfold ArcheryGame_view. cbn [loading_panel]. now rewrite Lg.
    + now rewrite Ig, item_keys_list_items.
  - intros F. rewrite It, Ig. subst names.
    rewrite (loaded_names_nil _ _ _ F). split; reflexivity.
Qed.

Lemma panel_after_the_loads_witness :
  let vt := AssetTest_view
              (AssetTestScene.load_all (Resolved [1])
                 (Rejected (ErrorObject "not found")) (Resolved [3])
                 [2; 0; 1] demo_world) in
  loading_panel vt = None
  /\ items vt = [asset_item "Target" "Target";
                 asset_item "Recurve Bow" "Recurve Bow"]
  /\ NoDup (item_keys (items vt)).
Proof.
  assert (P : Permutation [2; 0; 1] (seq 0 (List.length demo_loads))).
  { apply (Permutation_cons_app [0; 1] [] 2). apply Permutation_refl. }
  assert (N : NoDup (map load_name demo_loads)).
  { repeat constructor; cbn; intuition discriminate. }
  destruct (panel_after_the_loads demo_loads [2; 0; 1] demo_world 5
              (fun _ _ _ => (Zero, Zero, Zero)) P eq_refl N)
    as ((A & B & C) & _).
  split; [exact A|]. split; [exact B | exact C].
Defined.

(** ** Loading twice *)

(** X11.  Nothing resets the list of loaded assets or removes a name from
    it: when the loads of the test scene run a second time on the state a
    first run left (as when React runs the effect again), the list keeps
    what the first run appended and gains the names of the second run, so
    an asset that loads both times is listed twice and two items of the
    rendered list have the same React key. *)
Theorem loading_twice_lists_twice (loads : list Load) (order order' : list nat)
    (w : World) (l : Load) :
  Permutation order (seq 0 (List.length loads)) ->
  Permutation order' (seq 0 (List.length loads)) ->
  In l loads -> succeeds (scene w) l = true ->
  let w1 := Promise_all_then (map AssetTest_task loads) order
              AssetTestScene.on_loaded w in
  let w2 := Promise_all_then (map AssetTest_task loads) order'
              AssetTestScene.on_loaded w1 in
  loadedAssets w2
  = (loadedAssets w ++ loaded_names (scene w) loads order)
    ++ loaded_names (scene w) loads order'
  /\ ~ NoDup (item_keys (items (AssetTest_view w2))).
Proof.
  intros P P' Hl Hs.
  destruct (AssetTest_batch_state loads order w P) as (_ & A1 & C1).
  cbn zeta in A1, C1. cbn zeta.
  set (w1 := Promise_all_then (map AssetTest_task loads) order
               AssetTestScene.on_loaded w) in *.
  destruct (AssetTest_batch_state loads order' w1 P') as (_ & A2 & _).
  cbn zeta in A2.
  assert (E : loaded_names (scene w1) loads order'
              = loaded_names (scene w) loads order').
  { unfold loaded_names. f_equal. apply filter_ext.
    intros a. now apply succeeds_same_classes. }
  rewrite E, A1 in A2. split; [exact A2|].
  unfold AssetTest_view. cbn [items]. rewrite item_keys_list_items, A2.
  assert (In1 : forall o, Permutation o (seq 0 (List.length loads)) ->
                          In (load_name l) (loaded_names (scene w) loads o)).
  { intros o Po. unfold loaded_names. apply in_map, filter_In.
    split; [|exact Hs].
    apply (Permutation_in l
             (Permutation_sym (in_completion_order_permutation loads o Po))).
    exact Hl. }
  intros N. apply NoDup_app_remove_l in N as N'.
  rewrite <- app_assoc in N.
  apply NoDup_app_remove_l in N.
  destruct (in_split _ _ (In1 order P)) as (l1 & l2 & E1).
  rewrite E1 in N. rewrite <- app_assoc in N.
  apply NoDup_app_remove_l in N. cbn [app] in N.
  inversion N as [|? ? Hn _]; subst. apply Hn.
  apply in_or_app. right. exact (In1 order' P').
Qed.

Lemma loading_twice_lists_twice_witness :
  let w1 := AssetTestScene.load_all (Resolved [1])
              (Rejected (ErrorObject "not found")) (Resolved [3])
              [2; 0; 1] demo_world in
  let w2 := AssetTestScene.load_all (Resolved [1])
              (Rejected (ErrorObject "not found")) (Resolved [3])
              [0; 1; 2] w1 in
  loadedAssets w2 = ["Target"; "Recurve Bow"; "Recurve Bow"; "Target"].
Proof.
  assert (P : Permutation [2; 0; 1] (seq 0 (List.length demo_loads))).
  { apply (Permutation_cons_app [0; 1] [] 2). apply Permutation_refl. }
  assert (P' : Permutation [0; 1; 2] (seq 0 (List.length demo_loads)))
    by apply Permutation_refl.
  assert (Hl : In (mkRequest "target" "scene.gltf" (mkVector3 4 1 0) Zero
                             "Target" 3, Resolved [3]) demo_loads)
    by (right; right; now left).
  exact (proj1 (loading_twice_lists_twice demo_loads [2; 0; 1] [0; 1; 2]
                  demo_world _ P P' Hl eq_refl)).
Defined.

(** ** A load that never settles *)

Lemma settle_all_untouched (tasks : list (M Value)) (order : list nat) :
  forall (results : list (option (Completion Value))) (w : World) (i : nat),
    ~ In i order ->
    nth_error (fst (settle_all tasks order results w)) i
    = nth_error results i.
Proof.
  induction order as [|i0 rest IH]; intros results w i H; [reflexivity|].
  simpl. destruct (nth_error tasks i0) as [task|].
  - destruct (task w) as [c w1]. rewrite IH.
    + apply set_nth_other. intros ->. apply H. now left.
    + intros Hr. apply H. now right.
  - apply IH. intros Hr. apply H. now right.
Qed.

Lemma fulfilled_values_pending (rs : list (option (Completion Value))) :
  forall i, nth_error rs i = Some None -> fulfilled_values rs = None.
Proof.
  induction rs as [|r rs IH]; intros [|i] H; try discriminate.
  - injection H as ->. reflexivity.
  - simpl in H. simpl. rewrite (IH i H).
    destruct r as [[v|e]|]; reflexivity.
Qed.

Lemma nth_error_repeat_None {A : Type} (n i : nat) :
  i < n -> nth_error (repeat (@None A) n) i = Some None.
Proof.
  revert i. induction n as [|n IH]; intros [|i] H; simpl; try lia; auto.
  apply IH. lia.
Qed.

Lemma pending_barrier (task : Load -> M Value) (loads : list Load)
    (order : list nat) (w : World) (callback : list Value -> M unit)
    (i : nat) :
  task_step task -> i < List.length loads -> ~ In i order ->
  Promise_all_then (map task loads) order callback w
  = settled (map task loads) order w
  /\ loading (settled (map task loads) order w) = loading w
  /\ loadedAssets (settled (map task loads) order w)
     = loadedAssets w ++ loaded_names (scene w) loads order.
Proof.
  intros T Hi Hn. unfold Promise_all_then, settled.
  pose proof (settle_all_untouched (map task loads) order
                (repeat None (List.length (map task loads))) w i Hn) as U.
  pose proof (settle_all_spec task T loads order
                (repeat None (List.length (map task loads))) w) as S.
  cbn zeta in S. destruct S as (Hla & Hlo & _).
  destruct (settle_all (map task loads) order
              (repeat None (List.length (map task loads))) w)
    as [results w1].
  cbn [fst snd] in *.
  rewrite nth_error_repeat_None in U by now rewrite length_map.
  rewrite (fulfilled_values_pending results i U). auto.
Qed.

(** X12.  The barrier has no timeout: while the loader promise of one load
    has not settled, the callback of [Promise.all] has not run, whatever
    the other loads did.  [loading] is then as it was before the batch
    (the loading panel stays), while the names of the loads that did
    succeed are already in the list. *)
Theorem pending_load_keeps_loading (loads : list Load) (order : list nat)
    (w : World) (callback : list Value -> M unit) (i : nat) :
  i < List.length loads -> ~ In i order ->
  let wt := Promise_all_then (map AssetTest_task loads) order callback w in
  let wg := Promise_all_then (map ArcheryGame_task loads) order callback w in
  (wt = settled (map AssetTest_task loads) order w
   /\ loading wt = loading w
   /\ loadedAssets wt = loadedAssets w ++ loaded_names (scene w) loads order)
  /\ (wg = settled (map ArcheryGame_task loads) order w
      /\ loading wg = loading w
      /\ loadedAssets wg
         = loadedAssets w ++ loaded_names (scene w) loads order).
Proof.
  intros Hi Hn. cbn zeta. split.
  - destruct (pending_barrier AssetTest_task loads order w callback i
                AssetTest_task_step Hi Hn) as (E & L & A).
    rewrite E. auto.
  - destruct (pending_barrier ArcheryGame_task loads order w callback i
                ArcheryGame_task_step Hi Hn) as (E & L & A).
    rewrite E. auto.
Qed.

Lemma pending_load_keeps_loading_witness :
  let wt := Promise_all_then (map AssetTest_task demo_loads) [2; 0]
              AssetTestScene.on_loaded demo_world in
  loading wt = true /\ loadedAssets wt = ["Target"; "Recurve Bow"].
Proof.
  destruct (pending_load_keeps_loading demo_loads [2; 0] demo_world
              AssetTestScene.on_loaded 1) as ((_ & L & A) & _).
  - cbn. lia.
  - cbn. intuition discriminate.
  - split; [exact L | exact A].
Defined.

(** ** What the loads leave alone *)

(** X13.  A load writes no node other than the root it picks and that
    root's parent: every other node, the other nodes of [result.meshes]
    included, is after the load exactly as it was, in either scene and
    whether or not the load succeeds. *)
Theorem load_writes_root_and_parent_only (l : Load) (w : World) (j : ident) :
  (forall rm, snd l = Resolved rm ->
              ~ In j (touched (scene w) (rootMesh_of (scene w) rm))) ->
  scene (snd (AssetTest_task l w)) j = scene w j
  /\ scene (snd (ArcheryGame_task l w)) j = scene w j.
Proof.
  intros H. rewrite AssetTest_task_effect, ArcheryGame_task_effect.
  unfold AssetTest_effect, ArcheryGame_effect.
  destruct (snd l) as [e|rm]; [split; reflexivity|].
  specialize (H rm eq_refl). rewrite getBoundingBox_same.
  destruct (AssetTestScene.getBoundingBox _) as [bb|]; [|split; reflexivity].
  split.
  - now apply AssetTest_store_after_elsewhere.
  - now apply ArcheryGame_store_after_elsewhere.
Qed.

Lemma load_writes_root_and_parent_only_witness :
  scene (snd (AssetTest_task
                (mkRequest "target" "scene.gltf" (mkVector3 4 1 0) Zero
                           "Target" 3, Resolved [1; 4; 6]) demo_world)) 4
  = demo_scene 4
  /\ scene (snd (ArcheryGame_task
                   (mkRequest "target" "scene.gltf" (mkVector3 4 1 0) Zero
                              "Target" 3, Resolved [1; 4; 6]) demo_world)) 4
     = demo_scene 4.
Proof.
  apply (load_writes_root_and_parent_only
           (mkRequest "target" "scene.gltf" (mkVector3 4 1 0) Zero
                      "Target" 3, Resolved [1; 4; 6]) demo_world 4).
  intros rm [= <-]. cbn. intuition discriminate.
Defined.

Lemma AssetTest_store_after_keeps (sc : Scene) (root : ident) (s : number)
    (pos : Vector3) :
  keeps sc (AssetTest_store_after sc root s pos).
Proof. intros j. store_after_cases; repeat split; store_cases. Qed.

Lemma AssetTest_task_keeps (l : Load) (w : World) :
  keeps (scene w) (scene (snd (AssetTest_task l w))).
Proof.
  rewrite AssetTest_task_effect. unfold AssetTest_effect.
  destruct (snd l) as [e|rm]; [apply keeps_refl|].
  destruct (AssetTestScene.getBoundingBox _) as [bb|]; [|apply keeps_refl].
  apply AssetTest_store_after_keeps.
Qed.

Lemma ArcheryGame_task_keeps (l : Load) (w : World) :
  keeps (scene w) (scene (snd (ArcheryGame_task l w))).
Proof.
  rewrite ArcheryGame_task_effect. unfold ArcheryGame_effect.
  destruct (snd l) as [e|rm]; [apply keeps_refl|].
  destruct (ArcheryGameScene.getBoundingBox _) as [bb|]; [|apply keeps_refl].
  apply ArcheryGame_store_after_keeps.
Qed.

Lemma settle_all_keeps (task : Load -> M Value) (loads : list Load)
    (order : list nat) :
  (forall l w, keeps (scene w) (scene (snd (task l w)))) ->
  forall (results : list (option (Completion Value))) (w : World),
    keeps (scene w) (scene (snd (settle_all (map task loads) order results w))).
Proof.
  intros H. induction order as [|i rest IH]; intros results w;
    [apply keeps_refl|].
  simpl. rewrite nth_error_map.
  destruct (nth_error loads i) as [l|]; simpl; [|apply IH].
  pose proof (H l w) as K. destruct (task l w) as [c w1]. cbn [snd] in K.
  eapply keeps_trans; [exact K | apply IH].
Qed.

(** X14.  The loads never change the shape of the scene graph: whatever
    the requests, the loader outcomes and the order of completion, when
    the loads of a batch have settled every node has the parent it had,
    is a [Mesh] exactly when it was, and has kept its [scaling] and
    [position] properties, in either scene.  (Only the callback of the
    game scene re-parents a node.) *)
Theorem loads_keep_the_scene_graph (loads : list Load) (order : list nat)
    (w : World) :
  keeps (scene w) (scene (settled (map AssetTest_task loads) order w))
  /\ keeps (scene w) (scene (settled (map ArcheryGame_task loads) order w)).
Proof.
  unfold settled. split.
  - apply settle_all_keeps, AssetTest_task_keeps.
  - apply settle_all_keeps, ArcheryGame_task_keeps.
Qed.
